(** * tplink-go: session engine and table parsers

    A shallow embedding of the Go sources of [pascal71/tplink-go]:
    - package [client] (the reusable SSH client: [RunCommand],
      [waitForPrompt], the prompt and escape regular expressions),
    - the one-off script (package [main] with its own [waitForPrompt],
      which answers the enable-password prompt),
    - package [parser] (the table parsers).

    Go strings and byte slices are both modelled by [string] (a list of
    8-bit characters); maps by stdpp's [gmap]; the regular expressions by
    a small syntax tree run by a backtracking matcher with Go's
    leftmost-first preference. *)

From Stdlib Require Import Strings.String Strings.Ascii Lists.List.
From Stdlib Require Import NArith.NArith ZArith.ZArith QArith.QArith Arith.Arith Bool.Bool Lia.
From stdpp Require Import base option gmap strings list.

Import ListNotations.
Local Open Scope list_scope.
Local Open Scope string_scope.

(** ** Characters *)

Module Chars.

Definition code (c : ascii) : nat := nat_of_ascii c.

Definition LF  : ascii := ascii_of_nat 10.
Definition CR  : ascii := ascii_of_nat 13.
Definition ESC : ascii := ascii_of_nat 27.

Definition between (lo hi : nat) (c : ascii) : bool :=
  (lo <=? code c)%nat && (code c <=? hi)%nat.

(** [0-9] *)
Definition is_digit (c : ascii) : bool := between 48 57 c.
(** [a-zA-Z] *)
Definition is_letter (c : ascii) : bool := between 97 122 c || between 65 90 c.
(** [\w] of Go's regexp: [0-9A-Za-z_] *)
Definition is_word (c : ascii) : bool :=
  is_digit c || is_letter c || Ascii.eqb c "_".
(** [\s] of Go's regexp: [\t\n\f\r ] (no vertical tab) *)
Definition is_re_space (c : ascii) : bool :=
  (code c =? 9)%nat || (code c =? 10)%nat || (code c =? 12)%nat
  || (code c =? 13)%nat || (code c =? 32)%nat.

End Chars.
Import Chars.

(** ** Go's [strings] and [bytes] helpers *)

Module GoStrings.

(** [strings.HasPrefix(s, prefix)] *)
Fixpoint HasPrefix (s prefix : string) : bool :=
  match prefix, s with
  | EmptyString, _ => true
  | String p prefix', String c s' => Ascii.eqb p c && HasPrefix s' prefix'
  | String _ _, EmptyString => false
  end.

(** [bytes.Contains(b, sub)] / [strings.Contains] *)
Fixpoint Contains (s sub : string) : bool :=
  HasPrefix s sub ||
  match s with
  | EmptyString => false
  | String _ s' => Contains s' sub
  end.

(** [strings.ReplaceAll(s, string(c), "")] for a one-byte pattern. *)
Fixpoint RemoveByte (c : ascii) (s : string) : string :=
  match s with
  | EmptyString => EmptyString
  | String a s' => if Ascii.eqb a c then RemoveByte c s' else String a (RemoveByte c s')
  end.

(** [strings.Split(s, string(sep))] for a one-byte separator: never empty. *)
Fixpoint Split (s : string) (sep : ascii) : list string :=
  match s with
  | EmptyString => [EmptyString]
  | String c s' =>
      if Ascii.eqb c sep then EmptyString :: Split s' sep
      else match Split s' sep with
           | hd :: tl => String c hd :: tl
           | [] => [String c EmptyString]
           end
  end.

(** [strings.SplitN(s, string(sep), 2)]: cut at the first separator. *)
Fixpoint SplitN2 (s : string) (sep : ascii) : list string :=
  match s with
  | EmptyString => [EmptyString]
  | String c s' =>
      if Ascii.eqb c sep then [EmptyString; s']
      else match SplitN2 s' sep with
           | hd :: tl => String c hd :: tl
           | [] => [String c EmptyString]
           end
  end.

(** [strings.Join(elems, sep)] *)
Fixpoint Join (elems : list string) (sep : string) : string :=
  match elems with
  | [] => EmptyString
  | [e] => e
  | e :: rest => e ++ sep ++ Join rest sep
  end.

(** Width in bytes of the white-space rune ([unicode.IsSpace]) that starts
    [s], or 0 when [s] does not start with one.  The runes are
    U+0009..U+000D, U+0020, U+0085, U+00A0, U+1680, U+2000..U+200A,
    U+2028, U+2029, U+202F, U+205F and U+3000 in their UTF-8 encoding; a
    lead byte is never a continuation byte, so the test does not depend
    on what precedes [s]. *)
Definition space_width (s : string) : nat :=
  match s with
  | EmptyString => 0
  | String c0 s1 =>
      let b0 := code c0 in
      if ((9 <=? b0) && (b0 <=? 13) || (b0 =? 32))%nat then 1
      else match s1 with
      | EmptyString => 0
      | String c1 s2 =>
          let b1 := code c1 in
          if ((b0 =? 194) && ((b1 =? 133) || (b1 =? 160)))%nat then 2
          else match s2 with
          | EmptyString => 0
          | String c2 _ =>
              let b2 := code c2 in
              if ((b0 =? 225) && (b1 =? 154) && (b2 =? 128))%nat then 3
              else if ((b0 =? 226) && (b1 =? 128)
                       && ((128 <=? b2) && (b2 <=? 138) || (b2 =? 168)
                           || (b2 =? 169) || (b2 =? 175)))%nat then 3
              else if ((b0 =? 226) && (b1 =? 129) && (b2 =? 159))%nat then 3
              else if ((b0 =? 227) && (b1 =? 128) && (b2 =? 128))%nat then 3
              else 0
          end
      end
  end.

Fixpoint drop (n : nat) (s : string) : string :=
  match n, s with
  | O, _ => s
  | S n', String _ s' => drop n' s'
  | S _, EmptyString => EmptyString
  end.

(** [strings.Fields(s)]: the maximal runs of non-space bytes.  [cur] is the
    field being read (reversed is avoided by appending), [skip] counts the
    bytes of a multi-byte space still to be dropped. *)
Fixpoint fields_go (s : string) (skip : nat) (cur : string) : list string :=
  match s with
  | EmptyString => if String.eqb cur "" then [] else [cur]
  | String c s' =>
      match skip with
      | S k => fields_go s' k cur
      | O =>
          match space_width s with
          | O => fields_go s' 0 (cur ++ String c "")
          | S k => (if String.eqb cur "" then [] else [cur]) ++ fields_go s' k ""
          end
      end
  end.

Definition Fields (s : string) : list string := fields_go s 0 "".

(** Leading white space removed ([strings.TrimLeftFunc(s, unicode.IsSpace)]). *)
Fixpoint trim_left_fuel (fuel : nat) (s : string) : string :=
  match fuel with
  | O => s
  | S f =>
      match space_width s with
      | O => s
      | S k => trim_left_fuel f (drop (S k) s)
      end
  end.

Definition TrimLeft (s : string) : string := trim_left_fuel (String.length s) s.

(** Trailing white space removed: the text up to the end of the last
    byte that is not part of a white-space rune. *)
Fixpoint trim_right_go (s : string) (skip : nat) : string :=
  match s with
  | EmptyString => EmptyString
  | String c s' =>
      match skip with
      | S k =>
          match trim_right_go s' k with
          | EmptyString => EmptyString
          | r => String c r
          end
      | O =>
          match space_width s with
          | O => String c (trim_right_go s' 0)
          | S k =>
              match trim_right_go s' k with
              | EmptyString => EmptyString
              | r => String c r
              end
          end
      end
  end.

Definition TrimRight (s : string) : string := trim_right_go s 0.

(** [strings.TrimSpace(s)] *)
Definition TrimSpace (s : string) : string := TrimRight (TrimLeft s).

End GoStrings.
Import GoStrings.


(** ** Go's [regexp]: syntax and backtracking matcher

    The patterns of the sources only repeat single character classes, so
    the syntax has [Star] and [Plus] over a class.  [run] is a
    continuation-passing matcher that tries the alternatives in the order
    of Go's leftmost-first semantics (greedy repetition, [?] prefers one
    occurrence).  [prev] is the byte before the current position, [None]
    at the beginning of the text. *)

Module Regexp.

Inductive regex : Type :=
| Eps
| Lit (c : ascii)
| Class (p : ascii -> bool)
| Cat (r1 r2 : regex)
| Opt (r : regex)
| Star (p : ascii -> bool)
| Plus (p : ascii -> bool)
| Group (i : nat) (r : regex)
| BeginText                     (* [^] *)
| BeginLine                     (* [^] under [(?m)] *)
| EndText                       (* [$] *)
| EndLine.                      (* [$] under [(?m)] *)

(** A literal string. *)
Fixpoint Str (s : string) : regex :=
  match s with
  | EmptyString => Eps
  | String c s' => Cat (Lit c) (Str s')
  end.

(** Captured groups, most recent first. *)
Definition caps : Type := list (nat * string).

Fixpoint capture (i : nat) (cs : caps) : string :=
  match cs with
  | [] => ""
  | (j, s) :: cs' => if (i =? j)%nat then s else capture i cs'
  end.

(** The text consumed between position [s] and the later position [s']. *)
Definition consumed (s s' : string) : string :=
  String.substring 0 (String.length s - String.length s') s.

Definition at_line_start (prev : option ascii) : bool :=
  match prev with
  | None => true
  | Some c => Ascii.eqb c LF
  end.

Definition at_line_end (s : string) : bool :=
  match s with
  | EmptyString => true
  | String c _ => Ascii.eqb c LF
  end.

Section Matcher.
Context {A : Type}.

Definition cont : Type := option ascii -> string -> caps -> option A.

Definition orelse (x y : option A) : option A :=
  match x with
  | Some a => Some a
  | None => y
  end.

(** Greedy [p*]: the longest run first, then shorter ones. *)
Fixpoint star (p : ascii -> bool) (prev : option ascii) (s : string) (cs : caps)
    (k : cont) : option A :=
  match s with
  | String c s' =>
      if p c then orelse (star p (Some c) s' cs k) (k prev s cs) else k prev s cs
  | EmptyString => k prev s cs
  end.

Fixpoint run (r : regex) (prev : option ascii) (s : string) (cs : caps) (k : cont)
  : option A :=
  match r with
  | Eps => k prev s cs
  | Lit c =>
      match s with
      | String c' s' => if Ascii.eqb c c' then k (Some c') s' cs else None
      | EmptyString => None
      end
  | Class p =>
      match s with
      | String c' s' => if p c' then k (Some c') s' cs else None
      | EmptyString => None
      end
  | Cat r1 r2 => run r1 prev s cs (fun prev' s' cs' => run r2 prev' s' cs' k)
  | Opt r1 => orelse (run r1 prev s cs k) (k prev s cs)
  | Star p => star p prev s cs k
  | Plus p =>
      match s with
      | String c' s' => if p c' then star p (Some c') s' cs k else None
      | EmptyString => None
      end
  | Group i r1 =>
      run r1 prev s cs (fun prev' s' cs' => k prev' s' ((i, consumed s s') :: cs'))
  | BeginText => match prev with None => k prev s cs | Some _ => None end
  | BeginLine => if at_line_start prev then k prev s cs else None
  | EndText => match s with EmptyString => k prev s cs | String _ _ => None end
  | EndLine => if at_line_end s then k prev s cs else None
  end.

(** The leftmost position at which [r] matches. *)
Fixpoint search (r : regex) (prev : option ascii) (s : string) (k : cont) : option A :=
  orelse (run r prev s [] k)
    match s with
    | String c s' => search r (Some c) s' k
    | EmptyString => None
    end.

End Matcher.

(** [re.Match(b)] / [re.MatchString(s)] *)
Definition Match (r : regex) (s : string) : bool :=
  match search r None s (fun _ _ _ => Some tt) with
  | Some _ => true
  | None => false
  end.

(** Number of capturing groups. *)
Fixpoint NumSubexp (r : regex) : nat :=
  match r with
  | Cat r1 r2 => NumSubexp r1 + NumSubexp r2
  | Opt r1 => NumSubexp r1
  | Group _ r1 => S (NumSubexp r1)
  | _ => 0
  end.

(** [re.FindStringSubmatch(s)]: the whole match and the groups of the
    leftmost match, or nil. *)
Definition FindStringSubmatch (r : regex) (s : string) : list string :=
  match search (Group 0 r) None s (fun _ _ cs => Some cs) with
  | Some cs => List.map (fun i => capture i cs) (List.seq 0 (S (NumSubexp r)))
  | None => []
  end.

(** The text left after a match of [r] that starts at position [s]. *)
Definition match_here (r : regex) (prev : option ascii) (s : string)
  : option (option ascii * string) :=
  run r prev s [] (fun prev' rest _ => Some (prev', rest)).

(** [re.ReplaceAll(src, []byte(""))]: every leftmost non-overlapping
    match is deleted.  An empty match deletes nothing and the scan moves
    on by one byte, as in Go.  Every step shortens [s], so [fuel] equal to
    its length is never used up. *)
Fixpoint delete_matches (fuel : nat) (r : regex) (prev : option ascii) (s : string)
  : string :=
  match fuel with
  | O => s
  | S fuel' =>
      match s with
      | EmptyString => EmptyString
      | String c s' =>
          match match_here r prev s with
          | Some (prev', rest) =>
              if (String.length rest <? String.length s)%nat
              then delete_matches fuel' r prev' rest
              else String c (delete_matches fuel' r (Some c) s')
          | None => String c (delete_matches fuel' r (Some c) s')
          end
      end
  end.

Definition ReplaceAllEmpty (r : regex) (s : string) : string :=
  delete_matches (String.length s) r None s.

End Regexp.
Import Regexp.

(** ** Go's [strconv]

    The conversions the parsers call.  Each returns Go's pair of a value
    and an error; [None] is the nil error. *)

Module Strconv.

Inductive NumError : Type :=
| ErrSyntax
| ErrRange.

Definition digit_val (c : ascii) : N := N.of_nat (code c - 48).

Definition maxUint64 : N := 18446744073709551615.

(** The digit loop of [ParseUint(s, 10, 64)]: the first offending byte
    decides between a syntax and a range error. *)
Fixpoint uint_loop (s : string) (n : N) : N * option NumError :=
  match s with
  | EmptyString => (n, None)
  | String c s' =>
      if is_digit c then
        let n1 := (n * 10 + digit_val c)%N in
        if (maxUint64 <? n1)%N then (maxUint64, Some ErrRange) else uint_loop s' n1
      else (0%N, Some ErrSyntax)
  end.

(** [strconv.ParseUint(s, 10, 64)] *)
Definition ParseUint (s : string) : N * option NumError :=
  match s with
  | EmptyString => (0%N, Some ErrSyntax)
  | _ => uint_loop s 0
  end.

(** [strconv.Atoi(s)] with a 64-bit [int]. *)
Definition Atoi (s : string) : Z * option NumError :=
  match s with
  | EmptyString => (0%Z, Some ErrSyntax)
  | String c s' =>
      let neg := Ascii.eqb c "-" in
      let body := if Ascii.eqb c "+" || neg then s' else s in
      match ParseUint body with
      | (_, Some ErrSyntax) => (0%Z, Some ErrSyntax)
      | (un, _) =>
          let cutoff := (2 ^ 63)%N in
          if negb neg && (cutoff <=? un)%N then (Z.of_N cutoff - 1, Some ErrRange)%Z
          else if neg && (cutoff <? un)%N then (- Z.of_N cutoff, Some ErrRange)%Z
          else ((if neg then - Z.of_N un else Z.of_N un)%Z, None)
      end
  end.

(** A [float64], kept as the exact rational that the parsed text denotes
    (in lowest terms); Go holds the binary64 value nearest to it. *)
Inductive float64 : Type :=
| Finite (neg : bool) (magnitude : Q)
| Infinity (neg : bool)
| NaN.

(** [lower(c)] of strconv: [c | ('x' - 'X')]. *)
Definition lower (c : ascii) : ascii := ascii_of_N (N.lor (N_of_ascii c) 32).

Definition is_hex_letter (c : ascii) : bool := between 97 102 (lower c).

Definition hex_val (c : ascii) : N :=
  if is_digit c then digit_val c else N.of_nat (code (lower c) - 97 + 10).

Fixpoint lower_string (s : string) : string :=
  match s with
  | EmptyString => EmptyString
  | String c s' => String (if between 65 90 c then lower c else c) (lower_string s')
  end.

(** [special]: the whole text is an infinity or a NaN. *)
Definition special (s : string) : option float64 :=
  match s with
  | EmptyString => None
  | String c s' =>
      let signed := Ascii.eqb c "+" || Ascii.eqb c "-" in
      let body := lower_string (if signed then s' else s) in
      if String.eqb body "inf" || String.eqb body "infinity"
      then Some (Infinity (Ascii.eqb c "-"))
      else if negb signed && String.eqb body "nan" then Some NaN
      else None
  end.

(** [underscoreOK]: underscores only between digits or after a base prefix.
    [saw] is ["0"] after a digit or base prefix, ["_"] after an underscore,
    ["!"] after anything else and ["^"] at the start. *)
Fixpoint underscore_loop (s : string) (hex : bool) (saw : ascii) : bool :=
  match s with
  | EmptyString => negb (Ascii.eqb saw "_")
  | String c s' =>
      if is_digit c || hex && is_hex_letter c then underscore_loop s' hex "0"
      else if Ascii.eqb c "_" then
        Ascii.eqb saw "0" && underscore_loop s' hex "_"
      else if Ascii.eqb saw "_" then false
      else underscore_loop s' hex "!"
  end.

Definition underscoreOK (s : string) : bool :=
  let s :=
    match s with
    | String c s' => if Ascii.eqb c "-" || Ascii.eqb c "+" then s' else s
    | EmptyString => s
    end in
  match s with
  | String c0 (String c1 s') =>
      if Ascii.eqb c0 "0"
         && (Ascii.eqb (lower c1) "b" || Ascii.eqb (lower c1) "o" || Ascii.eqb (lower c1) "x")
      then underscore_loop s' (Ascii.eqb (lower c1) "x") "0"
      else underscore_loop s false "^"
  | _ => underscore_loop s false "^"
  end.

(** The mantissa loop of [readFloat]: the digits read as a number in
    [base], how many of them follow the point, whether a digit was seen,
    and the unread rest. *)
Fixpoint mantissa_loop (s : string) (hex sawdot sawdigits : bool) (n : N) (frac : nat)
  : N * nat * bool * string :=
  match s with
  | EmptyString => (n, frac, sawdigits, s)
  | String c s' =>
      if Ascii.eqb c "_" then mantissa_loop s' hex sawdot sawdigits n frac
      else if Ascii.eqb c "." then
        if sawdot then (n, frac, sawdigits, s)
        else mantissa_loop s' hex true sawdigits n frac
      else if is_digit c || hex && is_hex_letter c then
        mantissa_loop s' hex sawdot true
          (n * (if hex then 16 else 10) + hex_val c)%N
          (if sawdot then S frac else frac)
      else (n, frac, sawdigits, s)
  end.

(** The exponent digits of [readFloat], capped as in the source. *)
Fixpoint exponent_loop (s : string) (e : N) : N * string :=
  match s with
  | EmptyString => (e, s)
  | String c s' =>
      if Ascii.eqb c "_" then exponent_loop s' e
      else if is_digit c then
        exponent_loop s' (if (e <? 10000)%N then e * 10 + digit_val c else e)%N
      else (e, s)
  end.

(** The optional exponent: its signed value and the unread rest, or
    [None] when it is malformed or a hexadecimal mantissa lacks it. *)
Definition read_exponent (s : string) (hex : bool) : option (Z * string) :=
  let expChar : ascii := (if hex then "p" else "e")%char in
  match s with
  | String c s1 =>
      if Ascii.eqb (lower c) expChar then
        match s1 with
        | EmptyString => None
        | String c1 s2 =>
            let esign := if Ascii.eqb c1 "-" then (-1)%Z else 1%Z in
            let s3 := if Ascii.eqb c1 "+" || Ascii.eqb c1 "-" then s2 else s1 in
            match s3 with
            | String d _ =>
                if is_digit d then
                  let '(e, rest) := exponent_loop s3 0 in
                  Some ((Z.of_N e * esign)%Z, rest)
                else None
            | EmptyString => None
            end
        end
      else if hex then None else Some (0%Z, s)
  | EmptyString => if hex then None else Some (0%Z, s)
  end.

(** [n * base^(-frac) * ebase^e] as a fraction of two naturals. *)
Definition scaled (n : N) (base ebase : N) (frac : nat) (e : Z) : N * N :=
  let den := (base ^ N.of_nat frac)%N in
  if (0 <=? e)%Z then ((n * ebase ^ Z.to_N e)%N, den)
  else (n, (den * ebase ^ Z.to_N (- e))%N).

(** Half-way between the largest finite binary64 and [2^1024]: from
    there on the nearest binary64 is an infinity. *)
Definition overflow_threshold : N := (2 ^ 1024 - 2 ^ 970)%N.

(** [strconv.ParseFloat(s, 64)] *)
Definition ParseFloat (s : string) : float64 * option NumError :=
  match special s with
  | Some f => (f, None)
  | None =>
      let neg := match s with String c _ => Ascii.eqb c "-" | EmptyString => false end in
      let s1 :=
        match s with
        | String c s' => if Ascii.eqb c "+" || Ascii.eqb c "-" then s' else s
        | EmptyString => s
        end in
      let hex :=
        match s1 with
        | String c0 (String c1 (String _ _)) => Ascii.eqb c0 "0" && Ascii.eqb (lower c1) "x"
        | _ => false
        end in
      let s2 := if hex then drop 2 s1 else s1 in
      let '(n, frac, sawdigits, rest) := mantissa_loop s2 hex false false 0 0 in
      if negb sawdigits then (Finite false 0, Some ErrSyntax)
      else
        match read_exponent rest hex with
        | Some (e, EmptyString) =>
            if underscoreOK s then
              let '(num, den) :=
                scaled n (if hex then 16 else 10)%N (if hex then 2 else 10)%N frac e in
              if (overflow_threshold * den <=? num)%N then (Infinity neg, Some ErrRange)
              else (Finite neg (Qred (Z.of_N num # N.succ_pos (N.pred den))), None)
            else (Finite false 0, Some ErrSyntax)
        | _ => (Finite false 0, Some ErrSyntax)
        end
  end.

End Strconv.
Import Strconv.

(** ** Package [parser] *)

Module Parser.

(** The errors the parsers build with [fmt.Errorf], or pass on from
    [strconv]. *)
Inductive error : Type :=
| ParseErrorOnLine (line : string)      (* "parse error on line: %q" *)
| InvalidNumber (key : string) (cause : NumError)
                                        (* "invalid number for key %q: %v" *)
| ConvError (cause : NumError)          (* the error of [strconv.Atoi] *)
| UnableToParse (what : string).        (* "unable to parse ..." *)

(** [l[i]]; every use in the parsers follows a length test that puts [i]
    in range. *)
Definition index (l : list string) (i : nat) : string := List.nth i l "".

(** [l[lo:hi]] *)
Definition slice (l : list string) (lo hi : nat) : list string :=
  List.firstn (hi - lo) (List.skipn lo l).

Record PoEPort : Type := mkPoEPort {
  PowerWatts : float64;
  CurrentMA : Z;
  VoltageV : float64;
  PDClass : string;
  Status : string
}.

(** The [for _, line := range lines] loop of [ParsePoETable]; the nil
    map returned with an error is the empty map. *)
Fixpoint poe_loop (lines : list string) (ports : gmap string PoEPort)
  : gmap string PoEPort * option error :=
  match lines with
  | [] => (ports, None)
  | line :: rest =>
      let line := TrimSpace line in
      if HasPrefix line "Tw" then
        let fields := Fields line in
        if (length fields <? 6)%nat then poe_loop rest ports
        else
          let iface := index fields 0 in
          let '(power, err1) := ParseFloat (index fields 1) in
          let '(current, err2) := Atoi (index fields 2) in
          let '(voltage, err3) := ParseFloat (index fields 3) in
          match err1, err2, err3 with
          | None, None, None =>
              let pdClass := Join (slice fields 4 (length fields - 1)) " " in
              let status := index fields (length fields - 1) in
              poe_loop rest
                (<[iface := {| PowerWatts := power; CurrentMA := current;
                               VoltageV := voltage; PDClass := pdClass;
                               Status := status |}]> ports)
          | _, _, _ => (∅, Some (ParseErrorOnLine line))
          end
      else poe_loop rest ports
  end.

(** [func ParsePoETable(output string) (map[string]PoEPort, error)] *)
Definition ParsePoETable (output : string) : gmap string PoEPort * option error :=
  poe_loop (Split output LF) ∅.

(** [regexp.MustCompile(`^([\w\- /]+):\s+([\d,]+)$`)] *)
Definition keyValRegex : regex :=
  Cat BeginText
  (Cat (Group 1 (Plus (fun c => is_word c || Ascii.eqb c "-" || Ascii.eqb c " "
                                || Ascii.eqb c "/")))
  (Cat (Lit ":")
  (Cat (Plus is_re_space)
  (Cat (Group 2 (Plus (fun c => is_digit c || Ascii.eqb c ","))) EndText)))).

(** The loop of [ParseInterfaceCounters].  [stats[currentPort]] is
    present whenever [currentPort] is not empty, so the inner map that
    [stats[currentPort][key] = val] writes to is never nil. *)
Fixpoint counters_loop (lines : list string) (stats : gmap string (gmap string N))
    (currentPort : string) : gmap string (gmap string N) * option error :=
  match lines with
  | [] => (stats, None)
  | line :: rest =>
      let line := TrimSpace line in
      if HasPrefix line "Port:" then
        let parts := SplitN2 line ":" in
        if (length parts =? 2)%nat then
          let currentPort := TrimSpace (index parts 1) in
          counters_loop rest (<[currentPort := ∅]> stats) currentPort
        else counters_loop rest stats currentPort
      else if String.eqb currentPort "" then counters_loop rest stats currentPort
      else
        let matches := FindStringSubmatch keyValRegex line in
        if (length matches =? 3)%nat then
          let key := TrimSpace (index matches 1) in
          let valStr := RemoveByte "," (index matches 2) in
          match ParseUint valStr with
          | (_, Some err) => (∅, Some (InvalidNumber key err))
          | (val, None) =>
              let inner := default ∅ (stats !! currentPort) in
              counters_loop rest (<[currentPort := <[key := val]> inner]> stats) currentPort
          end
        else counters_loop rest stats currentPort
  end.

(** [func ParseInterfaceCounters(output string) (InterfaceStats, error)] *)
Definition ParseInterfaceCounters (output : string)
  : gmap string (gmap string N) * option error :=
  counters_loop (Split output LF) ∅ "".

Record CPUUtilization : Type := mkCPU {
  FiveSeconds : Z;
  OneMinute : Z;
  FiveMinutes : Z
}.

(** [regexp.MustCompile(`(?m)\|\s+(\d+)%\s+(\d+)%\s+(\d+)%`)] *)
Definition cpuRegex : regex :=
  Cat (Lit "|")
  (Cat (Plus is_re_space) (Cat (Group 1 (Plus is_digit)) (Cat (Lit "%")
  (Cat (Plus is_re_space) (Cat (Group 2 (Plus is_digit)) (Cat (Lit "%")
  (Cat (Plus is_re_space) (Cat (Group 3 (Plus is_digit)) (Lit "%"))))))))).

(** [func ParseCPUUtilization(output string) (CPUUtilization, error)] *)
Definition ParseCPUUtilization (output : string) : CPUUtilization * option error :=
  let matches := FindStringSubmatch cpuRegex output in
  if (length matches =? 4)%nat then
    match Atoi (index matches 1) with
    | (v1, Some e) => (mkCPU v1 0 0, Some (ConvError e))
    | (v1, None) =>
        match Atoi (index matches 2) with
        | (v2, Some e) => (mkCPU v1 v2 0, Some (ConvError e))
        | (v2, None) =>
            match Atoi (index matches 3) with
            | (v3, Some e) => (mkCPU v1 v2 v3, Some (ConvError e))
            | (v3, None) => (mkCPU v1 v2 v3, None)
            end
        end
    end
  else (mkCPU 0 0 0, Some (UnableToParse "cpu utilization")).

Record MemoryUtilization : Type := mkMem {
  Unit : Z;
  Usage : Z
}.

(** [regexp.MustCompile(`(?m)^(\d+)\s+\|\s+(\d+)%`)] *)
Definition memRegex : regex :=
  Cat BeginLine
  (Cat (Group 1 (Plus is_digit)) (Cat (Plus is_re_space) (Cat (Lit "|")
  (Cat (Plus is_re_space) (Cat (Group 2 (Plus is_digit)) (Lit "%")))))).

(** [func ParseMemoryUtilization(output string) (MemoryUtilization, error)] *)
Definition ParseMemoryUtilization (output : string) : MemoryUtilization * option error :=
  let matches := FindStringSubmatch memRegex output in
  if (length matches =? 3)%nat then
    match Atoi (index matches 1) with
    | (_, Some e) => (mkMem 0 0, Some (ConvError e))
    | (unit, None) =>
        match Atoi (index matches 2) with
        | (_, Some e) => (mkMem 0 0, Some (ConvError e))
        | (usage, None) => (mkMem unit usage, None)
        end
    end
  else (mkMem 0 0, Some (UnableToParse "memory utilization")).

Record InterfaceStatus : Type := mkStatus {
  isPort : string;
  isStatus : string;
  isSpeed : string;
  isDuplex : string;
  isFlowCtrl : string;
  isActiveMedium : string;
  isDescription : string
}.

(** The loop of [ParseInterfaceStatus]. *)
Fixpoint status_loop (lines : list string) (results : list InterfaceStatus)
  : list InterfaceStatus :=
  match lines with
  | [] => results
  | line :: rest =>
      let line := TrimSpace line in
      if HasPrefix line "Port" || HasPrefix line "----" || String.eqb line "" then
        status_loop rest results
      else
        let fields := Fields line in
        if (6 <=? length fields)%nat then
          let desc := Join (slice fields 6 (length fields)) " " in
          status_loop rest
            (results ++ [mkStatus (index fields 0) (index fields 1) (index fields 2)
                           (index fields 3) (index fields 4) (index fields 5) desc])
        else status_loop rest results
  end.

(** [func ParseInterfaceStatus(output string) ([]InterfaceStatus, error)] *)
Definition ParseInterfaceStatus (output : string) : list InterfaceStatus * option error :=
  (status_loop (Split output LF) [], None).

Record MACEntry : Type := mkMAC {
  MAC : string;
  VLAN : Z;
  mePort : string;
  meType : string;
  Aging : string
}.

(** The loop of [ParseMACTable]. *)
Fixpoint mac_loop (lines : list string) (results : list MACEntry) : list MACEntry :=
  match lines with
  | [] => results
  | line :: rest =>
      let line := TrimSpace line in
      if HasPrefix line "MAC" || HasPrefix line "---" || HasPrefix line "Total"
         || String.eqb line "" then
        mac_loop rest results
      else
        let fields := Fields line in
        if (length fields =? 5)%nat then
          match Atoi (index fields 1) with
          | (_, Some _) => mac_loop rest results
          | (vlan, None) =>
              mac_loop rest
                (results ++ [mkMAC (index fields 0) vlan (index fields 2)
                               (index fields 3) (index fields 4)])
          end
        else mac_loop rest results
  end.

(** [func ParseMACTable(output string) ([]MACEntry, error)] *)
Definition ParseMACTable (output : string) : list MACEntry * option error :=
  (mac_loop (Split output LF) [], None).

Record InterfaceConfig : Type := mkConfig {
  icPort : string;
  icState : string;
  icSpeed : string;
  icDuplex : string;
  icFlowCtrl : string;
  icDescription : string
}.

(** The loop of [ParseInterfaceConfig]. *)
Fixpoint config_loop (lines : list string) (results : list InterfaceConfig)
  : list InterfaceConfig :=
  match lines with
  | [] => results
  | line :: rest =>
      let line := TrimSpace line in
      if HasPrefix line "Port" || HasPrefix line "----" || String.eqb line "" then
        config_loop rest results
      else
        let fields := Fields line in
        if (5 <=? length fields)%nat then
          let desc := Join (slice fields 5 (length fields)) " " in
          config_loop rest
            (results ++ [mkConfig (index fields 0) (index fields 1) (index fields 2)
                           (index fields 3) (index fields 4) desc])
        else config_loop rest results
  end.

(** [func ParseInterfaceConfig(output string) ([]InterfaceConfig, error)] *)
Definition ParseInterfaceConfig (output : string) : list InterfaceConfig * option error :=
  (config_loop (Split output LF) [], None).

End Parser.

(** ** The transport seen by one read cycle *)

Module Transport.

(** The error returned by [stdout.Read]. *)
Inductive read_err : Type :=
| ErrNil
| ErrEOF
| ErrRead (msg : string).

(** [fmt.Fprint(w, data)] on the write side of the transport: [w] lists
    the payloads of the [Write] calls issued so far, [wfail] is whether
    this [Write] reports an error, which [Fprint] hands back. *)
Definition Fprint (wfail : bool) (w : list string) (data : string)
  : list string * option string :=
  ((w ++ [data])%list, if wfail then Some "write failed" else None).

(** [fmt.Fprintln(w, data)] *)
Definition Fprintln (wfail : bool) (w : list string) (data : string)
  : list string * option string :=
  Fprint wfail w (data ++ String LF "").

End Transport.
Import Transport.

(** ** Package [client] *)

Module Client.

(** [regexp.MustCompile(`(?m)[\r\n]*(SG2210XMP-M2(-N\d+)?(\([^)]*\))?[>#])\s*$`)] *)
Definition promptRegex : regex :=
  Cat (Star (fun c => Ascii.eqb c CR || Ascii.eqb c LF))
  (Cat (Group 1
         (Cat (Str "SG2210XMP-M2")
         (Cat (Opt (Group 2 (Cat (Str "-N") (Plus is_digit))))
         (Cat (Opt (Group 3 (Cat (Lit "(")
                            (Cat (Star (fun c => negb (Ascii.eqb c ")"))) (Lit ")")))))
              (Class (fun c => Ascii.eqb c ">" || Ascii.eqb c "#"))))))
  (Cat (Star is_re_space) EndLine)).

(** [regexp.MustCompile(`\x1b\[[0-9;]*[a-zA-Z]`)] *)
Definition ansiEscape : regex :=
  Cat (Lit ESC) (Cat (Lit "[")
    (Cat (Star (fun c => is_digit c || Ascii.eqb c ";")) (Class is_letter))).

(** The normalization step of the read cycle:
    [ansiEscape.ReplaceAll(b, []byte(""))]. *)
Definition strip (b : string) : string := ReplaceAllEmpty ansiEscape b.

(** The prompt test of the read cycle: [promptRegex.Match(cleaned)]. *)
Definition promptMatch (cleaned : string) : bool := Match promptRegex cleaned.

(** Each iteration of the read loop is a [select]: one of the ready
    channels is taken, or the [default] branch calls [c.stdout.Read(buf)].
    The environment of a call is the list of what its successive
    iterations observe.  A chunk is [buf[:n]], so it has at most 4096
    bytes; nothing below depends on that bound. *)
Inductive event : Type :=
| CtxDone                                  (* [<-ctx.Done()] is taken *)
| Timeout                                  (* [<-timeout] is taken *)
| Read (chunk : string) (err : read_err).  (* [Read] returned [buf[:n] = chunk] and [err] *)

(** The errors [waitForPrompt] returns. *)
Inductive error : Type :=
| ErrCtx                     (* [ctx.Err()] *)
| ErrTimeout                 (* "timeout waiting for prompt" *)
| ErrTransport (msg : string).

(** The fields of [Client] that a command touches: the accumulation
    buffer and, for [stdin], the payloads of the [Write] calls issued. *)
Record Client : Type := mkClient {
  outBuf : string;
  stdin : list string
}.

(** [NewClient]: [outBuf: new(bytes.Buffer)]. *)
Definition NewClient : Client := {| outBuf := ""; stdin := [] |}.

(** How a call stands after the given iterations: it has returned, or
    the loop is still iterating. *)
Inductive outcome : Type :=
| Returned (err : option error)
| Reading.

(** The [for] loop of [waitForPrompt]; [tmp] is its local buffer. *)
Fixpoint waitLoop (evs : list event) (tmp : string) (c : Client) : outcome * Client :=
  match evs with
  | [] => (Reading, c)
  | CtxDone :: _ => (Returned (Some ErrCtx), c)
  | Timeout :: _ => (Returned (Some ErrTimeout), c)
  | Read chunk err :: evs' =>
      match err with
      | ErrRead msg => (Returned (Some (ErrTransport msg)), c)
      | _ =>
          match chunk with
          | EmptyString => waitLoop evs' tmp c
          | String _ _ =>
              let tmp' := tmp ++ chunk in
              let c' := {| outBuf := outBuf c ++ chunk; stdin := stdin c |} in
              let cleaned := strip tmp' in
              if promptMatch cleaned then (Returned None, c')
              else waitLoop evs' tmp' c'
          end
      end
  end.

(** [func (c *Client) waitForPrompt(ctx context.Context) error] *)
Definition waitForPrompt (evs : list event) (c : Client) : outcome * Client :=
  waitLoop evs "" c.

(** What [RunCommand] hands back: the pair [(string, error)], or nothing
    yet. *)
Inductive run_result : Type :=
| RunReturned (out : string) (err : option error)
| RunReading.

(** [func (c *Client) RunCommand(ctx, cmd) (string, error)].
    [wfail] tells whether the [Write] behind [fmt.Fprint(c.stdin, ...)]
    reports an error; the call discards what [Fprint] returns. *)
Definition RunCommand (wfail : bool) (evs : list event) (cmd : string) (c : Client)
  : run_result * Client :=
  let '(w, _) := Fprint wfail (stdin c) (cmd ++ String CR (String LF "")) in
  let c0 := {| outBuf := outBuf c; stdin := w |} in
  match waitForPrompt evs c0 with
  | (Reading, c1) => (RunReading, c1)
  | (Returned (Some err), c1) => (RunReturned "" (Some err), c1)
  | (Returned None, c1) =>
      let out := strip (outBuf c1) in
      let out := RemoveByte CR out in
      (RunReturned out None, {| outBuf := ""; stdin := stdin c1 |})
  end.

End Client.

(** ** Package [main]: the one-off script *)

Module Main.

(** [regexp.MustCompile(`(?m)[\r\n]*(SG2210XMP-M2(-N\d+)?(\([^)]+\))?[>#])\s*$`)] *)
Definition promptRegex : regex :=
  Cat (Star (fun c => Ascii.eqb c CR || Ascii.eqb c LF))
  (Cat (Group 1
         (Cat (Str "SG2210XMP-M2")
         (Cat (Opt (Group 2 (Cat (Str "-N") (Plus is_digit))))
         (Cat (Opt (Group 3 (Cat (Lit "(")
                            (Cat (Plus (fun c => negb (Ascii.eqb c ")"))) (Lit ")")))))
              (Class (fun c => Ascii.eqb c ">" || Ascii.eqb c "#"))))))
  (Cat (Star is_re_space) EndLine)).

(** [regexp.MustCompile(`\x1b\[[0-9;]*[a-zA-Z]`)] *)
Definition ansiEscape : regex :=
  Cat (Lit ESC) (Cat (Lit "[")
    (Cat (Star (fun c => is_digit c || Ascii.eqb c ";")) (Class is_letter))).

(** The script's loop has a timer and the [default] branch only. *)
Inductive event : Type :=
| Timeout
| Read (chunk : string) (err : read_err).

(** What the script's read cycle touches: [fullOutput] and, for [stdin],
    the payloads of the [Write] calls issued. *)
Record session : Type := mkSession {
  fullOutput : string;
  stdin : list string
}.

Inductive outcome : Type :=
| TimedOut
| ReadFailed
| PromptDetected
| Reading.

(** The [for] loop of the script's [waitForPrompt].  [wfail] tells
    whether the writes of the password report an error; the loop discards
    what [Fprintln] returns. *)
Fixpoint waitLoop (wfail : bool) (evs : list event) (password : string) (tmp : string)
    (s : session) : outcome * session :=
  match evs with
  | [] => (Reading, s)
  | Timeout :: _ => (TimedOut, s)
  | Read chunk err :: evs' =>
      match err with
      | ErrRead _ => (ReadFailed, s)
      | _ =>
          match chunk with
          | EmptyString => waitLoop wfail evs' password tmp s
          | String _ _ =>
              let s1 := {| fullOutput := fullOutput s ++ chunk; stdin := stdin s |} in
              let tmp' := tmp ++ chunk in
              let cleaned := ReplaceAllEmpty ansiEscape tmp' in
              if Contains cleaned "Password:" then
                let '(w, _) := Fprintln wfail (stdin s1) password in
                let s2 := {| fullOutput := fullOutput s1; stdin := w |} in
                waitLoop wfail evs' password "" s2
              else if Match promptRegex cleaned then (PromptDetected, s1)
              else waitLoop wfail evs' password tmp' s1
          end
      end
  end.

(** [func waitForPrompt(stdin, stdout, password, fullOutput)] *)
Definition waitForPrompt (wfail : bool) (evs : list event) (password : string)
    (s : session) : outcome * session :=
  waitLoop wfail evs password "" s.

End Main.

(** * Vocabulary of the properties *)

Module Vocabulary.

(** Every byte of [s] satisfies [p]. *)
Fixpoint all (p : ascii -> bool) (s : string) : bool :=
  match s with
  | EmptyString => true
  | String c s' => p c && all p s'
  end.

(** Whether the byte [c] occurs in [s]. *)
Fixpoint has_byte (c : ascii) (s : string) : bool :=
  match s with
  | EmptyString => false
  | String a s' => Ascii.eqb a c || has_byte c s'
  end.

(** The byte before the position reached after reading [m]. *)
Fixpoint last_prev (prev : option ascii) (m : string) : option ascii :=
  match m with
  | EmptyString => prev
  | String c m' => last_prev (Some c) m'
  end.

(** [matches r prev m rest]: the text [m], found after [prev] and
    followed by [rest], is a match of [r]. *)
Inductive matches : regex -> option ascii -> string -> string -> Prop :=
| M_Eps prev rest : matches Eps prev "" rest
| M_Lit c prev rest : matches (Lit c) prev (String c "") rest
| M_Class (p : ascii -> bool) c prev rest :
    p c = true -> matches (Class p) prev (String c "") rest
| M_Cat r1 r2 prev m1 m2 rest :
    matches r1 prev m1 (m2 ++ rest) ->
    matches r2 (last_prev prev m1) m2 rest ->
    matches (Cat r1 r2) prev (m1 ++ m2) rest
| M_OptSome r prev m rest : matches r prev m rest -> matches (Opt r) prev m rest
| M_OptNone r prev rest : matches (Opt r) prev "" rest
| M_Star p prev m rest : all p m = true -> matches (Star p) prev m rest
| M_Plus p prev c m rest :
    p c = true -> all p m = true -> matches (Plus p) prev (String c m) rest
| M_Group i r prev m rest : matches r prev m rest -> matches (Group i r) prev m rest
| M_BeginText rest : matches BeginText None "" rest
| M_BeginLine prev rest : at_line_start prev = true -> matches BeginLine prev "" rest
| M_EndText prev : matches EndText prev "" ""
| M_EndLine prev rest : at_line_end rest = true -> matches EndLine prev "" rest.

End Vocabulary.
Import Vocabulary.

Module ClientDefs.
Import Client.

(** The bytes that the iterations hand to the [n > 0] branch of the
    client's loop, which writes them to [outBuf]: every chunk up to and
    including the one that completes the prompt, or up to the first
    iteration that leaves the loop otherwise. *)
Fixpoint buffered (evs : list event) (tmp : string) : string :=
  match evs with
  | Read chunk ErrNil :: evs' | Read chunk ErrEOF :: evs' =>
      match chunk with
      | EmptyString => buffered evs' tmp
      | String _ _ =>
          if promptMatch (strip (tmp ++ chunk)) then chunk
          else chunk ++ buffered evs' (tmp ++ chunk)
      end
  | _ => ""
  end.


(** Whether a complete escape sequence starts at the beginning of [s]. *)
Definition starts_escape (s : string) : bool :=
  match match_here ansiEscape None s with
  | Some _ => true
  | None => false
  end.

(** Every ESC byte of [s] starts a complete escape sequence. *)
Fixpoint esc_complete (s : string) : bool :=
  match s with
  | EmptyString => true
  | String c s' => (negb (Ascii.eqb c ESC) || starts_escape s) && esc_complete s'
  end.

(** The text of a prompt: the device name, an optional [-N<digits>], an
    optional parenthesised mode and the closing [>] or [#]. *)
Definition prompt_text (p : string) : Prop :=
  exists unit mode term,
    p = "SG2210XMP-M2" ++ unit ++ mode ++ String term "" /\
    (unit = "" \/ exists d ds, unit = "-N" ++ String d ds /\ all is_digit (String d ds) = true) /\
    (mode = "" \/ exists body, mode = "(" ++ body ++ ")" /\ has_byte ")" body = false) /\
    (term = ">"%char \/ term = "#"%char).

(** A prompt text ends the buffer, up to trailing white space. *)
Definition prompt_at_buffer_end (b : string) : Prop :=
  exists pre p ws, b = pre ++ p ++ ws /\ prompt_text p /\ all is_re_space ws = true.

(** A prompt text ends a line of the buffer, up to white space: what
    follows is white space and then a line feed or the end of the buffer. *)
Definition prompt_at_line_end (b : string) : Prop :=
  exists pre p ws rest,
    b = pre ++ p ++ ws ++ rest /\ prompt_text p /\ all is_re_space ws = true
    /\ at_line_end rest = true.

End ClientDefs.
Import ClientDefs.

Module ParserDefs.
Import Parser.

(** What the body of the loop of [ParsePoETable] does with one line. *)
Inductive poe_row_result : Type :=
| PoESkip
| PoEFail (e : error)
| PoEEntry (iface : string) (port : PoEPort).

Definition poe_row (line : string) : poe_row_result :=
  let line := TrimSpace line in
  if HasPrefix line "Tw" then
    let fields := Fields line in
    if (length fields <? 6)%nat then PoESkip
    else
      match snd (ParseFloat (index fields 1)), snd (Atoi (index fields 2)),
            snd (ParseFloat (index fields 3)) with
      | None, None, None =>
          PoEEntry (index fields 0)
            {| PowerWatts := fst (ParseFloat (index fields 1));
               CurrentMA := fst (Atoi (index fields 2));
               VoltageV := fst (ParseFloat (index fields 3));
               PDClass := Join (slice fields 4 (length fields - 1)) " ";
               Status := index fields (length fields - 1) |}
      | _, _, _ => PoEFail (ParseErrorOnLine line)
      end
  else PoESkip.

(** A row of the power table: the ["Tw"] prefix and at least six fields. *)
Definition poe_eligible (line : string) : bool :=
  HasPrefix (TrimSpace line) "Tw" && (6 <=? length (Fields (TrimSpace line)))%nat.

(** The [i]-th field of the trimmed line. *)
Definition field (line : string) (i : nat) : string :=
  index (Fields (TrimSpace line)) i.

(** What the body of the loop of [ParseInterfaceCounters] does with one line. *)
Inductive counters_row_result : Type :=
| CntSkip
| CntPort (port : string)
| CntSet (key : string) (val : N)
| CntFail (e : error).

Definition counters_row (line currentPort : string) : counters_row_result :=
  let line := TrimSpace line in
  if HasPrefix line "Port:" then
    let parts := SplitN2 line ":" in
    if (length parts =? 2)%nat then CntPort (TrimSpace (index parts 1)) else CntSkip
  else if String.eqb currentPort "" then CntSkip
  else
    let matches := FindStringSubmatch keyValRegex line in
    if (length matches =? 3)%nat then
      let key := TrimSpace (index matches 1) in
      match ParseUint (RemoveByte "," (index matches 2)) with
      | (_, Some err) => CntFail (InvalidNumber key err)
      | (val, None) => CntSet key val
      end
    else CntSkip.

(** The line is a port header. *)
Definition is_port_line (line : string) : bool := HasPrefix (TrimSpace line) "Port:".

(** The line is the header of port [p]. *)
Definition declares_port (line p : string) : bool :=
  is_port_line line
  && String.eqb (TrimSpace (index (SplitN2 (TrimSpace line) ":") 1)) p.


(** The line has the key/value shape but its value is not a [uint64]. *)
Definition bad_counter_value (line : string) : bool :=
  let matches := FindStringSubmatch keyValRegex (TrimSpace line) in
  negb (is_port_line line) && (length matches =? 3)%nat
  && match snd (ParseUint (RemoveByte "," (index matches 2))) with
     | Some _ => true
     | None => false
     end.

(** The entry that the loop of [ParseMACTable] appends for a line, if any. *)
Definition mac_row (line : string) : option MACEntry :=
  let line := TrimSpace line in
  if HasPrefix line "MAC" || HasPrefix line "---" || HasPrefix line "Total"
     || String.eqb line "" then None
  else
    let fields := Fields line in
    if (length fields =? 5)%nat then
      match Atoi (index fields 1) with
      | (_, Some _) => None
      | (vlan, None) =>
          Some (mkMAC (index fields 0) vlan (index fields 2) (index fields 3)
                  (index fields 4))
      end
    else None.

(** A line of the MAC table that has the expected shape. *)
Definition mac_shape (line : string) : bool :=
  let line := TrimSpace line in
  negb (HasPrefix line "MAC" || HasPrefix line "---" || HasPrefix line "Total"
        || String.eqb line "")
  && (length (Fields line) =? 5)%nat
  && match snd (Atoi (index (Fields line) 1)) with None => true | Some _ => false end.

(** The entry that the loop of [ParseInterfaceStatus] appends for a line. *)
Definition status_row (line : string) : option InterfaceStatus :=
  let line := TrimSpace line in
  if HasPrefix line "Port" || HasPrefix line "----" || String.eqb line "" then None
  else
    let fields := Fields line in
    if (6 <=? length fields)%nat then
      Some (mkStatus (index fields 0) (index fields 1) (index fields 2)
              (index fields 3) (index fields 4) (index fields 5)
              (Join (slice fields 6 (length fields)) " "))
    else None.

Definition status_shape (line : string) : bool :=
  let line := TrimSpace line in
  negb (HasPrefix line "Port" || HasPrefix line "----" || String.eqb line "")
  && (6 <=? length (Fields line))%nat.

(** The entry that the loop of [ParseInterfaceConfig] appends for a line. *)
Definition config_row (line : string) : option InterfaceConfig :=
  let line := TrimSpace line in
  if HasPrefix line "Port" || HasPrefix line "----" || String.eqb line "" then None
  else
    let fields := Fields line in
    if (5 <=? length fields)%nat then
      Some (mkConfig (index fields 0) (index fields 1) (index fields 2)
              (index fields 3) (index fields 4)
              (Join (slice fields 5 (length fields)) " "))
    else None.

Definition config_shape (line : string) : bool :=
  let line := TrimSpace line in
  negb (HasPrefix line "Port" || HasPrefix line "----" || String.eqb line "")
  && (5 <=? length (Fields line))%nat.

(** The inner map that a key/value line writes to exists: [stats] has
    an entry for the current port. *)
Definition current_present (stats : gmap string (gmap string N)) (cur : string) : Prop :=
  cur <> "" -> is_Some (stats !! cur).

End ParserDefs.
Import ParserDefs.

(** ** Package [client]: the life of a connection *)

Module Lifecycle.
Import Client.

(** What the SSH library answers to the calls of [Connect]: the error of
    each call, [None] for nil. *)
Record ssh_env : Type := mkEnv {
  dial_err : option string;
  session_err : option string;
  stdin_pipe_err : option string;
  stdout_pipe_err : option string;
  pty_err : option string;
  shell_err : option string
}.

(** The calls [Connect] and [Close] make on the SSH library. *)
Inductive ssh_call : Type :=
| Dial
| NewSession
| StdinPipe
| StdoutPipe
| RequestPty
| Shell
| SessionClose
| ConnClose.

(** A [Client] with its handles: [conn] and [session] tell whether
    [c.conn] and [c.session] are set; [calls] lists the library calls
    issued so far. *)
Record Conn : Type := mkConn {
  io : Client;
  conn : bool;
  session : bool;
  calls : list ssh_call
}.

(** [NewClient]: no handle is set. *)
Definition NewConn : Conn :=
  {| io := NewClient; conn := false; session := false; calls := [] |}.

Inductive connect_error : Type :=
| ErrDial (msg : string)        (* "SSH dial failed: %w" *)
| ErrSession (msg : string)     (* "SSH session failed: %w" *)
| ErrSetup (msg : string)       (* the error of a pipe, the pty or the shell *)
| ErrPrompt (e : error).        (* the error of [waitForPrompt] *)

Inductive connect_outcome : Type :=
| ConnectReturned (err : option connect_error)
| ConnectReading.

Definition called (call : ssh_call) (c : Conn) : Conn :=
  {| io := io c; conn := conn c; session := session c; calls := (calls c ++ [call])%list |}.

(** [func (c *Client) Connect(ctx context.Context) error] *)
Definition Connect (env : ssh_env) (evs : list event) (c : Conn)
  : connect_outcome * Conn :=
  let c := called Dial c in
  match dial_err env with
  | Some msg => (ConnectReturned (Some (ErrDial msg)), c)
  | None =>
      let c := {| io := io c; conn := true; session := session c; calls := calls c |} in
      let c := called NewSession c in
      match session_err env with
      | Some msg => (ConnectReturned (Some (ErrSession msg)), c)
      | None =>
          let c := {| io := io c; conn := conn c; session := true; calls := calls c |} in
          let c := called StdinPipe c in
          match stdin_pipe_err env with
          | Some msg => (ConnectReturned (Some (ErrSetup msg)), c)
          | None =>
              let c := called StdoutPipe c in
              match stdout_pipe_err env with
              | Some msg => (ConnectReturned (Some (ErrSetup msg)), c)
              | None =>
                  let c := called RequestPty c in
                  match pty_err env with
                  | Some msg => (ConnectReturned (Some (ErrSetup msg)), c)
                  | None =>
                      let c := called Shell c in
                      match shell_err env with
                      | Some msg => (ConnectReturned (Some (ErrSetup msg)), c)
                      | None =>
                          match waitForPrompt evs (io c) with
                          | (Reading, io') =>
                              (ConnectReading,
                               {| io := io'; conn := conn c; session := session c;
                                  calls := calls c |})
                          | (Returned (Some e), io') =>
                              (ConnectReturned (Some (ErrPrompt e)),
                               {| io := io'; conn := conn c; session := session c;
                                  calls := calls c |})
                          | (Returned None, io') =>
                              (ConnectReturned None,
                               {| io := io'; conn := conn c; session := session c;
                                  calls := calls c |})
                          end
                      end
                  end
              end
          end
      end
  end.

(** [func (c *Client) Close()] *)
Definition Close (c : Conn) : Conn :=
  let c := if session c then called SessionClose c else c in
  if conn c then called ConnClose c else c.

(** [RunCommand] on a client with its handles. *)
Definition RunCommandOn (wfail : bool) (evs : list event) (cmd : string) (c : Conn)
  : run_result * Conn :=
  let '(r, io') := RunCommand wfail evs cmd (io c) in
  (r, {| io := io'; conn := conn c; session := session c; calls := calls c |}).

End Lifecycle.

(** ** Command [tplink-cli] *)

Module Cli.
Import Client.

(** [commands := []string{...}] of [main]. *)
Definition commands : list string :=
  ["enable"; "config"; "no clipaging"; "exit"; "show power inline information interface"].

(** What the transport does during one call of [RunCommand]: whether the
    write fails, and what the iterations of the read loop observe. *)
Definition exchange : Type := bool * list event.





End Cli.

(** ** The one-off script: its command sequence *)

Module Script.
Import Main.

(** What the transport does during one call of the script's
    [waitForPrompt]: whether the writes fail, and what the iterations of
    the read loop observe. *)
Definition exchange : Type := bool * list event.


(** The seven commands that [main] sends. *)
Definition commands : list string :=
  ["enable"; "config"; "no clipaging"; "exit";
   "show power inline information interface"; "exit"; "exit"].


End Script.

Module ExtraDefs.

(** The data of the reads of the client's loop that report no error
    other than [io.EOF], in order. *)
Fixpoint chunks (evs : list Client.event) : string :=
  match evs with
  | [] => ""
  | Client.Read chunk ErrNil :: evs' | Client.Read chunk ErrEOF :: evs' =>
      chunk ++ chunks evs'
  | _ :: evs' => chunks evs'
  end.

(** The same for the script's loop. *)
Fixpoint script_chunks (evs : list Main.event) : string :=
  match evs with
  | [] => ""
  | Main.Read chunk ErrNil :: evs' | Main.Read chunk ErrEOF :: evs' =>
      chunk ++ script_chunks evs'
  | _ :: evs' => script_chunks evs'
  end.

(** A read that brought no data and no error other than [io.EOF]. *)
Definition empty_read (e : Client.event) : bool :=
  match e with
  | Client.Read EmptyString ErrNil | Client.Read EmptyString ErrEOF => true
  | _ => false
  end.


(** No line of [lines] is a row of the power table for the port [k]. *)
Definition no_poe_row (k : string) (lines : list string) : Prop :=
  forall l, In l lines -> forall v, poe_row l <> PoEEntry k v.

(** [p] is a prefix of [s]. *)
Definition is_prefix (p s : string) : Prop := exists t, s = p ++ t.

(** [sub] occurs in [s]. *)
Definition occurs (sub s : string) : Prop := exists pre post, s = pre ++ sub ++ post.

End ExtraDefs.
Import ExtraDefs.

(** * Properties *)

#[local] Arguments String.append !s1 s2 : simpl nomatch.

(** ** Strings *)

Module StringFacts.

Lemma app_nil_r (s : string) : s ++ "" = s.
Proof. induction s as [|c s IH]; simpl; [reflexivity | now rewrite IH]. Qed.

Lemma app_assoc (a b c : string) : (a ++ b) ++ c = a ++ (b ++ c).
Proof. induction a as [|x a IH]; simpl; [reflexivity | now rewrite IH]. Qed.

Lemma length_app (a b : string) :
  String.length (a ++ b) = (String.length a + String.length b)%nat.
Proof. induction a as [|x a IH]; simpl; [reflexivity | now rewrite IH]. Qed.

Lemma all_app p (a b : string) : all p (a ++ b) = all p a && all p b.
Proof.
  induction a as [|x a IH]; simpl; [reflexivity|].
  rewrite IH. now rewrite andb_assoc.
Qed.

Lemma has_byte_app c (a b : string) :
  has_byte c (a ++ b) = has_byte c a || has_byte c b.
Proof.
  induction a as [|x a IH]; simpl; [reflexivity|].
  rewrite IH. now rewrite orb_assoc.
Qed.

Lemma has_byte_RemoveByte_same c s : has_byte c (RemoveByte c s) = false.
Proof.
  induction s as [|a s IH]; simpl; [reflexivity|].
  destruct (Ascii.eqb a c) eqn:E; simpl; [exact IH | now rewrite E].
Qed.

Lemma has_byte_RemoveByte_other c d s :
  has_byte c s = false -> has_byte c (RemoveByte d s) = false.
Proof.
  induction s as [|a s IH]; simpl; [reflexivity|].
  intros H. apply orb_false_iff in H as [Ha Hs].
  destruct (Ascii.eqb a d); simpl; [auto | rewrite Ha; auto].
Qed.

End StringFacts.
Import StringFacts.

(** ** The matcher against a declarative reading of the patterns *)

Module RegexpFacts.

Lemma last_prev_app prev (a b : string) :
  last_prev prev (a ++ b) = last_prev (last_prev prev a) b.
Proof. revert prev; induction a as [|x a IH]; intros prev; simpl; auto. Qed.

Section Soundness.
Context {A : Type}.
Implicit Types (k : @cont A) (a : A).

Lemma orelse_Some (x y : option A) a :
  orelse x y = Some a -> x = Some a \/ (x = None /\ y = Some a).
Proof. destruct x; simpl; intros H; [left | right]; auto. Qed.

Lemma star_sound p prev s cs k a :
  star p prev s cs k = Some a ->
  exists m rest, s = m ++ rest /\ all p m = true /\ k (last_prev prev m) rest cs = Some a.
Proof.
  revert prev. induction s as [|c s IH]; intros prev; simpl.
  - intros H. exists "", "". auto.
  - destruct (p c) eqn:Hp.
    + intros H. apply orelse_Some in H as [H | [_ H]].
      * apply IH in H as (m & rest & -> & Hall & Hk).
        exists (String c m), rest. simpl. rewrite Hp. auto.
      * exists "", (String c s). auto.
    + intros H. exists "", (String c s). auto.
Qed.

Lemma run_sound r : forall prev s cs k a,
  run r prev s cs k = Some a ->
  exists m rest cs', s = m ++ rest /\ matches r prev m rest
                     /\ k (last_prev prev m) rest cs' = Some a.
Proof.
  induction r as [ | c | p | r1 IH1 r2 IH2 | r1 IH1 | p | p | i r1 IH1 | | | | ];
    intros prev s cs k a; simpl.
  - intros H. exists "", s, cs. split; [reflexivity|]. split; [constructor | exact H].
  - destruct s as [|c' s']; [discriminate|].
    destruct (Ascii.eqb c c') eqn:E; [|discriminate].
    apply Ascii.eqb_eq in E as <-. intros H.
    exists (String c ""), s', cs. split; [reflexivity|]. split; [constructor | exact H].
  - destruct s as [|c' s']; [discriminate|].
    destruct (p c') eqn:E; [|discriminate]. intros H.
    exists (String c' ""), s', cs. split; [reflexivity|].
    split; [now constructor | exact H].
  - intros H. apply IH1 in H as (m1 & rest1 & cs1 & -> & Hm1 & H).
    apply IH2 in H as (m2 & rest & cs2 & -> & Hm2 & H).
    exists (m1 ++ m2), rest, cs2. rewrite StringFacts.app_assoc. split; [reflexivity|].
    split; [now constructor | now rewrite last_prev_app].
  - intros H. apply orelse_Some in H as [H | [_ H]].
    + apply IH1 in H as (m & rest & cs' & -> & Hm & H).
      exists m, rest, cs'. split; [reflexivity|].
      split; [now apply M_OptSome | exact H].
    + exists "", s, cs. split; [reflexivity|]. split; [apply M_OptNone | exact H].
  - intros H. apply star_sound in H as (m & rest & -> & Hall & H).
    exists m, rest, cs. split; [reflexivity|]. split; [now constructor | exact H].
  - destruct s as [|c' s']; [discriminate|].
    destruct (p c') eqn:E; [|discriminate]. intros H.
    apply star_sound in H as (m & rest & -> & Hall & H).
    exists (String c' m), rest, cs. split; [reflexivity|].
    split; [now constructor | exact H].
  - intros H. apply IH1 in H as (m & rest & cs' & -> & Hm & H).
    eexists m, rest, _. split; [reflexivity|]. split; [now constructor | exact H].
  - destruct prev; [discriminate|]. intros H.
    exists "", s, cs. split; [reflexivity|]. split; [constructor | exact H].
  - destruct (at_line_start prev) eqn:E; [|discriminate]. intros H.
    exists "", s, cs. split; [reflexivity|]. split; [now constructor | exact H].
  - destruct s; [|discriminate]. intros H.
    exists "", "", cs. split; [reflexivity|]. split; [constructor | exact H].
  - destruct (at_line_end s) eqn:E; [|discriminate]. intros H.
    exists "", s, cs. split; [reflexivity|]. split; [now constructor | exact H].
Qed.

Lemma search_sound r : forall s prev k a,
  search r prev s k = Some a ->
  exists pre m rest cs', s = pre ++ m ++ rest
    /\ matches r (last_prev prev pre) m rest
    /\ k (last_prev prev (pre ++ m)) rest cs' = Some a.
Proof.
  induction s as [|c s IH]; intros prev k a; simpl; intros H;
    apply orelse_Some in H as [H | [_ H]]; try discriminate.
  - apply run_sound in H as (m & rest & cs' & Hs & Hm & H).
    exists "", m, rest, cs'. auto.
  - apply run_sound in H as (m & rest & cs' & Hs & Hm & H).
    exists "", m, rest, cs'. auto.
  - apply IH in H as (pre & m & rest & cs' & -> & Hm & H).
    exists (String c pre), m, rest, cs'. auto.
Qed.

End Soundness.

Lemma Match_sound r s :
  Match r s = true ->
  exists pre m rest, s = pre ++ m ++ rest /\ matches r (last_prev None pre) m rest.
Proof.
  unfold Match. destruct (search r None s _) eqn:H; [|discriminate]. intros _.
  apply search_sound in H as (pre & m & rest & cs' & -> & Hm & _). eauto.
Qed.

End RegexpFacts.
Import RegexpFacts.

Module RegexpInv.

Lemma matches_Cat r1 r2 prev m rest :
  matches (Cat r1 r2) prev m rest ->
  exists m1 m2, m = m1 ++ m2 /\ matches r1 prev m1 (m2 ++ rest)
                /\ matches r2 (last_prev prev m1) m2 rest.
Proof. inversion 1; subst; eauto. Qed.

Lemma matches_Lit c prev m rest : matches (Lit c) prev m rest -> m = String c "".
Proof. now inversion 1. Qed.

Lemma matches_Class p prev m rest :
  matches (Class p) prev m rest -> exists c, m = String c "" /\ p c = true.
Proof. inversion 1; subst; eauto. Qed.

Lemma matches_Opt r prev m rest :
  matches (Opt r) prev m rest -> m = "" \/ matches r prev m rest.
Proof. inversion 1; subst; auto. Qed.

Lemma matches_Star p prev m rest : matches (Star p) prev m rest -> all p m = true.
Proof. now inversion 1. Qed.

Lemma matches_Plus p prev m rest :
  matches (Plus p) prev m rest -> exists c m', m = String c m' /\ all p m = true.
Proof.
  inversion 1 as [ | | | | | | | p' prev' c m' rest' Hc Hall | | | | | ]; subst.
  eexists _, _. split; [reflexivity|]. simpl. now rewrite Hc, Hall.
Qed.

Lemma matches_Group i r prev m rest :
  matches (Group i r) prev m rest -> matches r prev m rest.
Proof. now inversion 1. Qed.

Lemma matches_EndLine prev m rest :
  matches EndLine prev m rest -> m = "" /\ at_line_end rest = true.
Proof. inversion 1; subst; auto. Qed.

Lemma matches_EndText prev m rest : matches EndText prev m rest -> m = "" /\ rest = "".
Proof. inversion 1; subst; auto. Qed.

Lemma matches_Str lit prev m rest : matches (Str lit) prev m rest -> m = lit.
Proof.
  revert prev m. induction lit as [|c lit IH]; intros prev m; simpl.
  - now inversion 1.
  - intros H. apply matches_Cat in H as (m1 & m2 & -> & H1 & H2).
    apply matches_Lit in H1 as ->. apply IH in H2 as ->. reflexivity.
Qed.

Lemma matches_Str_intro lit prev rest : matches (Str lit) prev lit rest.
Proof.
  revert prev. induction lit as [|c lit IH]; intros prev; simpl.
  - constructor.
  - change (String c lit) with (String c "" ++ lit). constructor; [constructor | apply IH].
Qed.

Section Completeness.
Context {A : Type}.
Implicit Types (k : @cont A).

Lemma orelse_is_Some (x y : option A) : is_Some x \/ is_Some y -> is_Some (orelse x y).
Proof. destruct x; simpl; intros [H | H]; eauto. now destruct H. Qed.

Lemma star_complete p m : forall prev rest cs k,
  all p m = true -> is_Some (k (last_prev prev m) rest cs) ->
  is_Some (star p prev (m ++ rest) cs k).
Proof.
  induction m as [|c m IH]; intros prev rest cs k Hall Hk; simpl in *.
  - destruct rest as [|c rest]; simpl; [exact Hk|].
    destruct (p c); [apply orelse_is_Some; now right | exact Hk].
  - apply andb_true_iff in Hall as [Hc Hall]. rewrite Hc.
    apply orelse_is_Some. left. now apply IH.
Qed.

Lemma run_complete r prev m rest :
  matches r prev m rest ->
  forall cs k, (forall cs', is_Some (k (last_prev prev m) rest cs')) ->
  is_Some (run r prev (m ++ rest) cs k).
Proof.
  induction 1 as [ prev rest | c prev rest | p c prev rest Hc
                 | r1 r2 prev m1 m2 rest _ IH1 _ IH2 | r prev m rest _ IH | r prev rest
                 | p prev m rest Hall | p prev c m rest Hc Hall | i r prev m rest _ IH
                 | rest | prev rest Hb | prev | prev rest He ];
    intros cs k Hk; simpl in *.
  - apply Hk.
  - rewrite Ascii.eqb_refl. apply Hk.
  - rewrite Hc. apply Hk.
  - rewrite StringFacts.app_assoc. apply IH1. intros cs'.
    apply IH2. intros cs''. rewrite <- last_prev_app. apply Hk.
  - apply orelse_is_Some. left. now apply IH.
  - apply orelse_is_Some. right. apply Hk.
  - apply star_complete; [exact Hall | apply Hk].
  - rewrite Hc. apply star_complete; [exact Hall | apply Hk].
  - apply IH. intros cs'. apply Hk.
  - apply Hk.
  - rewrite Hb. apply Hk.
  - apply Hk.
  - rewrite He. apply Hk.
Qed.

Lemma search_complete r pre : forall prev m rest k,
  matches r (last_prev prev pre) m rest ->
  (forall p s cs, is_Some (k p s cs)) ->
  is_Some (search r prev (pre ++ m ++ rest) k).
Proof.
  induction pre as [|c pre IH]; intros prev m rest k Hm Hk.
  - simpl in *. destruct (m ++ rest) eqn:E; simpl;
      apply orelse_is_Some; left; rewrite <- E; eapply run_complete; eauto.
  - simpl. apply orelse_is_Some. right. now apply IH.
Qed.

End Completeness.

Lemma Match_complete r pre m rest :
  matches r (last_prev None pre) m rest -> Match r (pre ++ m ++ rest) = true.
Proof.
  intros Hm. unfold Match.
  destruct (search_complete r pre None m rest (fun _ _ _ => Some tt) Hm) as [[] ->]; eauto.
Qed.

Lemma Match_iff r s :
  Match r s = true <->
  exists pre m rest, s = pre ++ m ++ rest /\ matches r (last_prev None pre) m rest.
Proof.
  split; [apply Match_sound|]. intros (pre & m & rest & -> & Hm). now apply Match_complete.
Qed.

End RegexpInv.
Import RegexpInv.

Module ClientFacts.
Import Client.

Lemma match_here_ansi_prev p p' s :
  match_here ansiEscape p s = match_here ansiEscape p' s.
Proof.
  unfold match_here, ansiEscape. simpl.
  destruct s as [|c s]; [reflexivity|]. now destruct (Ascii.eqb ESC c).
Qed.

Lemma match_here_ansi_split p s p' rest :
  match_here ansiEscape p s = Some (p', rest) ->
  exists m, s = String ESC m ++ rest.
Proof.
  unfold match_here. intros H.
  apply run_sound in H as (m & rest0 & cs' & -> & Hm & H).
  simpl in H. injection H as _ <-.
  apply matches_Cat in Hm as (m1 & m2 & -> & H1 & _).
  apply matches_Lit in H1 as ->. now exists m2.
Qed.

Lemma match_here_ansi_head p c s x :
  match_here ansiEscape p (String c s) = Some x -> c = ESC.
Proof.
  destruct x as [p' rest]. intros H.
  apply match_here_ansi_split in H as [m H]. now injection H.
Qed.

Lemma strip_fixes_esc_free s : forall fuel p,
  has_byte ESC s = false -> delete_matches fuel ansiEscape p s = s.
Proof.
  induction s as [|c s IH]; intros fuel p H; destruct fuel as [|fuel]; simpl; auto.
  simpl in H. apply orb_false_iff in H as [Hc Hs].
  destruct (match_here ansiEscape p (String c s)) as [[p' rest]|] eqn:E.
  - apply match_here_ansi_head in E as ->. discriminate.
  - now rewrite IH.
Qed.

Lemma esc_complete_suffix m rest : esc_complete (m ++ rest) = true -> esc_complete rest = true.
Proof.
  induction m as [|c m IH]; simpl; [auto|].
  intros H. apply andb_true_iff in H as [_ H]. auto.
Qed.

Lemma strip_removes_complete fuel : forall s p,
  (String.length s <= fuel)%nat -> esc_complete s = true ->
  has_byte ESC (delete_matches fuel ansiEscape p s) = false.
Proof.
  induction fuel as [|fuel IH]; intros s p Hlen Hc.
  - destruct s; [reflexivity | simpl in Hlen; lia].
  - destruct s as [|c s]; [reflexivity|]. simpl delete_matches.
    destruct (match_here ansiEscape p (String c s)) as [[p' rest]|] eqn:E.
    + pose proof (match_here_ansi_split _ _ _ _ E) as [m Hs].
      assert (Hl : (String.length rest < String.length (String c s))%nat).
      { rewrite Hs. simpl. rewrite StringFacts.length_app. lia. }
      apply Nat.ltb_lt in Hl as Hl'. simpl in Hl'. rewrite Hl'.
      apply IH; [simpl in Hl, Hlen; lia|].
      rewrite Hs in Hc. now apply esc_complete_suffix in Hc.
    + simpl in Hc. apply andb_true_iff in Hc as [Hh Ht].
      unfold starts_escape in Hh.
      rewrite (match_here_ansi_prev None p), E in Hh. simpl in Hh.
      rewrite orb_false_r in Hh. apply negb_true_iff in Hh.
      simpl. rewrite Hh. simpl. apply IH; [simpl in Hlen; lia | exact Ht].
Qed.

Lemma strip_esc_complete b : esc_complete b = true -> has_byte ESC (strip b) = false.
Proof. intros H. now apply strip_removes_complete. Qed.

Lemma strip_esc_free b : has_byte ESC b = false -> strip b = b.
Proof. intros H. now apply strip_fixes_esc_free. Qed.

Lemma no_match_without_esc s : has_byte ESC s = false -> Match ansiEscape s = false.
Proof.
  intros H. destruct (Match ansiEscape s) eqn:E; [|reflexivity].
  apply Match_sound in E as (pre & m & rest & -> & Hm).
  apply matches_Cat in Hm as (m1 & m2 & -> & H1 & _). apply matches_Lit in H1 as ->.
  rewrite !has_byte_app in H. simpl in H.
  now rewrite orb_true_r in H.
Qed.

(** The prompt pattern only matches a prompt text that is followed by
    white space up to the end of a line. *)
Lemma promptRegex_shape prev m rest :
  matches promptRegex prev m rest ->
  exists nl p ws, m = nl ++ p ++ ws /\ prompt_text p
                  /\ all is_re_space ws = true /\ at_line_end rest = true.
Proof.
  unfold promptRegex. intros H.
  apply matches_Cat in H as (nl & m1 & -> & _ & H).
  apply matches_Cat in H as (p & m2 & -> & Hp & H).
  apply matches_Cat in H as (ws & m3 & -> & Hws & H).
  apply matches_EndLine in H as [-> Hend]. apply matches_Star in Hws.
  apply matches_Group in Hp.
  apply matches_Cat in Hp as (dev & p1 & -> & Hdev & Hp).
  apply matches_Str in Hdev as ->.
  apply matches_Cat in Hp as (unit & p2 & -> & Hunit & Hp).
  apply matches_Cat in Hp as (mode & t & -> & Hmode & Ht).
  apply matches_Class in Ht as (term & -> & Hterm).
  exists nl, ("SG2210XMP-M2" ++ unit ++ mode ++ String term ""), ws.
  rewrite StringFacts.app_nil_r. split; [reflexivity|]. split; [|now split].
  exists unit, mode, term. split; [reflexivity|]. split; [|split].
  - apply matches_Opt in Hunit as [-> | Hunit]; [now left | right].
    apply matches_Group in Hunit.
    apply matches_Cat in Hunit as (n & ds & -> & Hn & Hds).
    apply matches_Str in Hn as ->.
    apply matches_Plus in Hds as (d & ds' & -> & Hall). eauto.
  - apply matches_Opt in Hmode as [-> | Hmode]; [now left | right].
    apply matches_Group in Hmode.
    apply matches_Cat in Hmode as (l & m1 & -> & Hl & Hmode).
    apply matches_Lit in Hl as ->.
    apply matches_Cat in Hmode as (body & r & -> & Hbody & Hr).
    apply matches_Lit in Hr as ->. apply matches_Star in Hbody.
    exists body. split; [reflexivity|].
    clear -Hbody. induction body as [|c body IH]; simpl in *; [reflexivity|].
    apply andb_true_iff in Hbody as [Hc Hb]. apply negb_true_iff in Hc.
    rewrite Hc. now apply IH.
  - apply orb_true_iff in Hterm as [H | H]; apply Ascii.eqb_eq in H; auto.
Qed.

End ClientFacts.
Import ClientFacts.

Module LoopFacts.
Import Client.

Lemma delete_matches_fuel r fuel1 : forall fuel2 p s,
  (String.length s <= fuel1)%nat -> (String.length s <= fuel2)%nat ->
  delete_matches fuel1 r p s = delete_matches fuel2 r p s.
Proof.
  induction fuel1 as [|fuel1 IH]; intros fuel2 p s H1 H2.
  - destruct s; [|simpl in H1; lia]. now destruct fuel2.
  - destruct s as [|c s]; [now destruct fuel2|].
    destruct fuel2 as [|fuel2]; [simpl in H2; lia|].
    simpl in *. destruct (match_here r p (String c s)) as [[p' rest]|].
    + destruct (String.length rest <? S (String.length s))%nat eqn:E.
      * apply Nat.ltb_lt in E. apply IH; lia.
      * f_equal. apply IH; lia.
    + f_equal. apply IH; lia.
Qed.

Lemma delete_ansi_prev fuel : forall p p' s,
  delete_matches fuel ansiEscape p s = delete_matches fuel ansiEscape p' s.
Proof.
  induction fuel as [|fuel IH]; intros p p' s; [reflexivity|].
  destruct s as [|c s]; [reflexivity|]. simpl.
  now rewrite (match_here_ansi_prev p p').
Qed.

(** Stripping passes over a prefix without ESC bytes. *)
Lemma strip_app_esc_free a b : has_byte ESC a = false -> strip (a ++ b) = a ++ strip b.
Proof.
  unfold strip, ReplaceAllEmpty. generalize (@None ascii) as p.
  induction a as [|c a IH]; intros p H; [reflexivity|].
  simpl in H. apply orb_false_iff in H as [Hc Ha]. simpl.
  destruct (match_here ansiEscape p (String c (a ++ b))) as [[p' rest]|] eqn:E.
  - apply match_here_ansi_head in E as ->. discriminate.
  - f_equal. rewrite (IH (Some c) Ha). f_equal. apply delete_ansi_prev.
Qed.

Lemma RemoveByte_app c a b : RemoveByte c (a ++ b) = RemoveByte c a ++ RemoveByte c b.
Proof.
  induction a as [|x a IH]; [reflexivity|]. simpl.
  destruct (Ascii.eqb x c); simpl; now rewrite IH.
Qed.

(** The loop appends to [outBuf] what [buffered] lists and issues no write. *)
Lemma waitLoop_state evs : forall tmp c,
  outBuf (snd (waitLoop evs tmp c)) = outBuf c ++ buffered evs tmp
  /\ stdin (snd (waitLoop evs tmp c)) = stdin c.
Proof.
  induction evs as [|e evs IH]; intros tmp c; simpl.
  - now rewrite StringFacts.app_nil_r.
  - destruct e as [ | | chunk err]; simpl;
      try (now rewrite StringFacts.app_nil_r).
    destruct err; simpl; try (now rewrite StringFacts.app_nil_r);
      (destruct chunk as [|x chunk]; [apply IH|]);
      (destruct (promptMatch (strip (tmp ++ String x chunk))); simpl;
       [auto | destruct (IH (tmp ++ String x chunk)
                 {| outBuf := outBuf c ++ String x chunk; stdin := stdin c |}) as [-> ->];
               simpl; now rewrite StringFacts.app_assoc]).
Qed.

(** [RunCommand] in terms of its read cycle. *)
Lemma RunCommand_unfold wfail evs cmd c :
  RunCommand wfail evs cmd c =
  let c0 := {| outBuf := outBuf c;
               stdin := (stdin c ++ [(cmd ++ String CR (String LF ""))%string])%list |} in
  match waitForPrompt evs c0 with
  | (Reading, c1) => (RunReading, c1)
  | (Returned (Some err), c1) => (RunReturned "" (Some err), c1)
  | (Returned None, c1) =>
      (RunReturned (RemoveByte CR (strip (outBuf c1))) None,
       {| outBuf := ""; stdin := stdin c1 |})
  end.
Proof. reflexivity. Qed.

Lemma RunCommand_failed wfail evs cmd c out e c1 :
  RunCommand wfail evs cmd c = (RunReturned out (Some e), c1) ->
  out = "" /\ outBuf c1 = outBuf c ++ buffered evs "".
Proof.
  rewrite RunCommand_unfold. cbv zeta. unfold waitForPrompt.
  match goal with |- context [waitLoop ?a ?b ?d] =>
    pose proof (waitLoop_state a b d) as [Hb _]; destruct (waitLoop a b d) as [o c'] end.
  simpl in Hb. destruct o as [[err|]|]; intros H; inversion H; subst. auto.
Qed.

Lemma RunCommand_succeeded wfail evs cmd c out c2 :
  RunCommand wfail evs cmd c = (RunReturned out None, c2) ->
  out = RemoveByte CR (strip (outBuf c ++ buffered evs "")) /\ outBuf c2 = "".
Proof.
  rewrite RunCommand_unfold. cbv zeta. unfold waitForPrompt.
  match goal with |- context [waitLoop ?a ?b ?d] =>
    pose proof (waitLoop_state a b d) as [Hb _]; destruct (waitLoop a b d) as [o c'] end.
  simpl in Hb. destruct o as [[err|]|]; intros H; inversion H; subst.
  now rewrite Hb.
Qed.


End LoopFacts.

Module ParserFacts.
Import Parser.

Lemma poe_loop_cons line rest ports :
  poe_loop (line :: rest) ports =
  match poe_row line with
  | PoESkip => poe_loop rest ports
  | PoEFail e => (∅, Some e)
  | PoEEntry iface port => poe_loop rest (<[iface := port]> ports)
  end.
Proof.
  unfold poe_row. simpl.
  destruct (HasPrefix (TrimSpace line) "Tw"); [|reflexivity].
  destruct (length (Fields (TrimSpace line)) <? 6)%nat; [reflexivity|].
  destruct (ParseFloat (index (Fields (TrimSpace line)) 1)) as [power [e1|]];
    destruct (Atoi (index (Fields (TrimSpace line)) 2)) as [current [e2|]];
    destruct (ParseFloat (index (Fields (TrimSpace line)) 3)) as [voltage [e3|]];
    reflexivity.
Qed.


Lemma poe_row_bad line :
  poe_eligible line = true ->
  snd (ParseFloat (field line 1)) <> None \/ snd (Atoi (field line 2)) <> None
    \/ snd (ParseFloat (field line 3)) <> None ->
  poe_row line = PoEFail (ParseErrorOnLine (TrimSpace line)).
Proof.
  unfold poe_eligible, poe_row, field. intros H Hbad.
  apply andb_true_iff in H as [-> H]. apply Nat.leb_le in H.
  assert (Hlt : (length (Fields (TrimSpace line)) <? 6)%nat = false)
    by (apply Nat.ltb_ge; lia).
  rewrite Hlt.
  destruct (snd (ParseFloat (index (Fields (TrimSpace line)) 1)));
    destruct (snd (Atoi (index (Fields (TrimSpace line)) 2)));
    destruct (snd (ParseFloat (index (Fields (TrimSpace line)) 3)));
    try reflexivity.
  destruct Hbad as [H0 | [H0 | H0]]; now elim H0.
Qed.

Lemma poe_row_entry_key line iface port :
  poe_row line = PoEEntry iface port -> poe_eligible line = true /\ iface = field line 0.
Proof.
  unfold poe_row, poe_eligible, field.
  destruct (HasPrefix (TrimSpace line) "Tw"); [|discriminate].
  destruct (length (Fields (TrimSpace line)) <? 6)%nat eqn:E; [discriminate|].
  apply Nat.ltb_ge in E. apply Nat.leb_le in E. rewrite E.
  destruct (snd (ParseFloat _)); [discriminate|].
  destruct (snd (Atoi _)); [discriminate|].
  destruct (snd (ParseFloat _)); [discriminate|].
  intros H. injection H as <- _. auto.
Qed.

(** A failing row anywhere in the input fails the whole call. *)
Lemma poe_loop_fails lines : forall ports line e,
  In line lines -> poe_row line = PoEFail e -> snd (poe_loop lines ports) <> None.
Proof.
  induction lines as [|l lines IH]; intros ports line e Hin Hrow; [destruct Hin|].
  rewrite poe_loop_cons. destruct Hin as [-> | Hin].
  - rewrite Hrow. discriminate.
  - destruct (poe_row l); [eapply IH; eauto | discriminate | eapply IH; eauto].
Qed.


(** A call that succeeds reaches every line with some table. *)
Lemma poe_loop_reaches l1 : forall ports l2,
  snd (poe_loop (l1 ++ l2) ports) = None ->
  exists ports', poe_loop (l1 ++ l2) ports = poe_loop l2 ports'.
Proof.
  induction l1 as [|l l1 IH]; intros ports l2 H; simpl app in *.
  - now exists ports.
  - rewrite poe_loop_cons in *. destruct (poe_row l); [auto | discriminate | auto].
Qed.


End ParserFacts.

Module CountersFacts.
Import Parser.

Lemma counters_loop_cons line rest (stats : gmap string (gmap string N)) cur :
  counters_loop (line :: rest) stats cur =
  match counters_row line cur with
  | CntSkip => counters_loop rest stats cur
  | CntPort p => counters_loop rest (<[p := ∅]> stats) p
  | CntSet key val =>
      counters_loop rest (<[cur := <[key := val]> (default ∅ (stats !! cur))]> stats) cur
  | CntFail e => (∅, Some e)
  end.
Proof.
  unfold counters_row. simpl.
  destruct (HasPrefix (TrimSpace line) "Port:").
  { destruct (length (SplitN2 (TrimSpace line) ":") =? 2)%nat; reflexivity. }
  destruct (String.eqb cur ""); [reflexivity|].
  destruct (length (FindStringSubmatch keyValRegex (TrimSpace line)) =? 3)%nat;
    [|reflexivity].
  destruct (ParseUint _) as [val [e|]]; reflexivity.
Qed.

Lemma counters_row_port line cur p :
  counters_row line cur = CntPort p -> declares_port line p = true.
Proof.
  unfold counters_row, declares_port, is_port_line.
  destruct (HasPrefix (TrimSpace line) "Port:").
  - destruct (length (SplitN2 (TrimSpace line) ":") =? 2)%nat; [|discriminate].
    intros H. injection H as <-. now rewrite String.eqb_refl.
  - destruct (String.eqb cur ""); [discriminate|].
    destruct (length _ =? 3)%nat; [|discriminate].
    destruct (ParseUint _) as [val [e|]]; discriminate.
Qed.


Lemma counters_row_bad line cur :
  cur <> "" -> bad_counter_value line = true ->
  exists e, counters_row line cur = CntFail e.
Proof.
  unfold bad_counter_value, counters_row, is_port_line. intros Hcur H.
  apply andb_true_iff in H as [H Hbad]. apply andb_true_iff in H as [Hp Hlen].
  apply negb_true_iff in Hp. rewrite Hp, Hlen.
  apply String.eqb_neq in Hcur. rewrite Hcur.
  destruct (ParseUint _) as [v [e|]]; [eauto | discriminate].
Qed.

Lemma counters_loop_reaches l1 : forall (stats : gmap string (gmap string N)) cur l2,
  current_present stats cur ->
  snd (counters_loop (l1 ++ l2) stats cur) = None ->
  exists stats' cur', counters_loop (l1 ++ l2) stats cur = counters_loop l2 stats' cur'
                      /\ current_present stats' cur'.
Proof.
  induction l1 as [|l l1 IH]; intros stats cur l2 Hinv H; simpl app in *.
  - now exists stats, cur.
  - rewrite counters_loop_cons in *.
    destruct (counters_row l cur) as [ | p | key val | e] eqn:Hrow.
    + now apply IH.
    + apply IH; [|exact H]. intros _. rewrite lookup_insert_eq. eauto.
    + apply IH; [|exact H]. intros _. rewrite lookup_insert_eq. eauto.
    + discriminate.
Qed.

(** Lines that are no port header keep the current port. *)
Lemma counters_loop_same_port mid : forall (stats : gmap string (gmap string N)) cur rest,
  (forall l, In l mid -> is_port_line l = false) ->
  snd (counters_loop (mid ++ rest) stats cur) = None ->
  exists stats', counters_loop (mid ++ rest) stats cur = counters_loop rest stats' cur.
Proof.
  induction mid as [|l mid IH]; intros stats cur rest Hmid H; simpl app in *.
  - now exists stats.
  - rewrite counters_loop_cons in *.
    assert (Hl : is_port_line l = false) by (apply Hmid; now left).
    assert (Hmid' : forall l', In l' mid -> is_port_line l' = false)
      by (intros l' Hin; apply Hmid; now right).
    destruct (counters_row l cur) as [ | p | key val | e] eqn:Hrow.
    + now apply IH.
    + apply counters_row_port in Hrow. unfold declares_port in Hrow.
      rewrite Hl in Hrow. discriminate.
    + now apply IH.
    + discriminate.
Qed.


End CountersFacts.

Module TableFacts.
Import Parser.

Lemma mac_loop_spec lines : forall acc, mac_loop lines acc = (acc ++ omap mac_row lines)%list.
Proof.
  induction lines as [|l lines IH]; intros acc; cbn [mac_loop omap list_omap].
  - now rewrite List.app_nil_r.
  - unfold mac_row at 1.
    destruct (HasPrefix (TrimSpace l) "MAC" || HasPrefix (TrimSpace l) "---"
              || HasPrefix (TrimSpace l) "Total" || String.eqb (TrimSpace l) ""); [apply IH|].
    destruct (length (Fields (TrimSpace l)) =? 5)%nat; [|apply IH].
    destruct (Atoi _) as [vlan [e|]]; [apply IH|].
    rewrite IH. now rewrite <- List.app_assoc.
Qed.

Lemma status_loop_spec lines : forall acc,
  status_loop lines acc = (acc ++ omap status_row lines)%list.
Proof.
  induction lines as [|l lines IH]; intros acc; cbn [status_loop omap list_omap].
  - now rewrite List.app_nil_r.
  - unfold status_row at 1.
    destruct (HasPrefix (TrimSpace l) "Port" || HasPrefix (TrimSpace l) "----"
              || String.eqb (TrimSpace l) ""); [apply IH|].
    destruct (6 <=? length (Fields (TrimSpace l)))%nat; [|apply IH].
    rewrite IH. now rewrite <- List.app_assoc.
Qed.

Lemma config_loop_spec lines : forall acc,
  config_loop lines acc = (acc ++ omap config_row lines)%list.
Proof.
  induction lines as [|l lines IH]; intros acc; cbn [config_loop omap list_omap].
  - now rewrite List.app_nil_r.
  - unfold config_row at 1.
    destruct (HasPrefix (TrimSpace l) "Port" || HasPrefix (TrimSpace l) "----"
              || String.eqb (TrimSpace l) ""); [apply IH|].
    destruct (5 <=? length (Fields (TrimSpace l)))%nat; [|apply IH].
    rewrite IH. now rewrite <- List.app_assoc.
Qed.

Lemma mac_row_shape line : mac_shape line = false -> mac_row line = None.
Proof.
  unfold mac_shape, mac_row.
  destruct (HasPrefix (TrimSpace line) "MAC" || HasPrefix (TrimSpace line) "---"
            || HasPrefix (TrimSpace line) "Total" || String.eqb (TrimSpace line) "");
    [reflexivity|].
  destruct (length (Fields (TrimSpace line)) =? 5)%nat; [|reflexivity].
  destruct (Atoi _) as [vlan [e|]]; [reflexivity | discriminate].
Qed.

Lemma status_row_shape line : status_shape line = false -> status_row line = None.
Proof.
  unfold status_shape, status_row.
  destruct (HasPrefix (TrimSpace line) "Port" || HasPrefix (TrimSpace line) "----"
            || String.eqb (TrimSpace line) ""); [reflexivity|].
  destruct (6 <=? length (Fields (TrimSpace line)))%nat; [discriminate | reflexivity].
Qed.

Lemma config_row_shape line : config_shape line = false -> config_row line = None.
Proof.
  unfold config_shape, config_row.
  destruct (HasPrefix (TrimSpace line) "Port" || HasPrefix (TrimSpace line) "----"
            || String.eqb (TrimSpace line) ""); [reflexivity|].
  destruct (5 <=? length (Fields (TrimSpace line)))%nat; [discriminate | reflexivity].
Qed.

Lemma omap_drop {A B} (f : A -> option B) (l1 : list A) x l2 :
  f x = None -> omap f (l1 ++ x :: l2)%list = omap f (l1 ++ l2)%list.
Proof. intros H. rewrite !omap_app. simpl. now rewrite H. Qed.

End TableFacts.

(** ** The session engine *)

Module EngineFacts.
Import Client.

Lemma last_prev_all P s : forall q,
  all P s = true -> last_prev q s = q \/ exists c, last_prev q s = Some c /\ P c = true.
Proof.
  induction s as [|x s IH]; intros q; simpl; [auto|].
  intros H. apply andb_true_iff in H as [Hx Hs].
  destruct (IH (Some x) Hs) as [-> | ?]; eauto.
Qed.

Lemma prompt_text_last p q :
  prompt_text p -> last_prev q p = Some ">"%char \/ last_prev q p = Some "#"%char.
Proof.
  intros (unit & mode & term & -> & _ & _ & Hterm).
  rewrite !last_prev_app. simpl. destruct Hterm as [-> | ->]; auto.
Qed.

Lemma prompt_text_has_terminator p :
  prompt_text p -> has_byte ">" p || has_byte "#" p = true.
Proof.
  intros (unit & mode & term & -> & _ & _ & Hterm).
  rewrite !has_byte_app. cbn [has_byte].
  destruct Hterm as [-> | ->]; rewrite Ascii.eqb_refl;
    rewrite ?orb_true_r; reflexivity.
Qed.

Lemma all_not_paren body :
  has_byte ")" body = false -> all (fun c => negb (Ascii.eqb c ")")) body = true.
Proof.
  induction body as [|c body IH]; simpl; [reflexivity|].
  intros H. apply orb_false_iff in H as [-> H]. simpl. auto.
Qed.

(** A prompt text followed by white space up to the end of a line is a
    match of the prompt pattern. *)
Lemma prompt_text_matches p ws prev rest :
  prompt_text p -> all is_re_space ws = true -> at_line_end rest = true ->
  matches promptRegex prev (p ++ ws) rest.
Proof.
  intros (unit & mode & term & -> & Hunit & Hmode & Hterm) Hws Hend.
  match goal with |- matches _ _ (?p ++ ws) _ =>
    replace (p ++ ws) with ("" ++ p ++ ws ++ "")
      by (now rewrite (StringFacts.app_nil_r ws)) end.
  unfold promptRegex.
  apply M_Cat; [now apply M_Star|].
  apply M_Cat; [|apply M_Cat; [now apply M_Star | now apply M_EndLine]].
  apply M_Group. apply M_Cat; [apply matches_Str_intro|].
  apply M_Cat; [|apply M_Cat].
  - destruct Hunit as [-> | (d & ds & -> & Hall)]; [apply M_OptNone|].
    apply M_OptSome, M_Group. apply M_Cat; [apply matches_Str_intro|].
    simpl in Hall. apply andb_true_iff in Hall as [Hd Hds]. now apply M_Plus.
  - destruct Hmode as [-> | (body & -> & Hbody)]; [apply M_OptNone|].
    apply M_OptSome, M_Group.
    change ("(" ++ body ++ ")") with (String "(" "" ++ body ++ ")").
    apply M_Cat; [apply M_Lit|]. apply M_Cat; [|apply M_Lit].
    apply M_Star. now apply all_not_paren.
  - apply M_Class. destruct Hterm as [-> | ->]; reflexivity.
Qed.

Lemma promptMatch_iff b : promptMatch b = true <-> prompt_at_line_end b.
Proof.
  unfold promptMatch. split.
  - intros H. apply Match_sound in H as (pre & m & rest & -> & Hm).
    apply promptRegex_shape in Hm as (nl & p & ws & -> & Hp & Hws & Hend).
    exists (pre ++ nl), p, ws, rest. rewrite !StringFacts.app_assoc. auto.
  - intros (pre & p & ws & rest & -> & Hp & Hws & Hend).
    pose proof (prompt_text_matches p ws (last_prev None pre) rest Hp Hws Hend) as Hm.
    apply Match_complete in Hm. now rewrite StringFacts.app_assoc in Hm.
Qed.

End EngineFacts.
Import EngineFacts LoopFacts.



(** C2, as stated, fails: stripping ESC ESC [ A [ B leaves ESC [ B, which a
    second pass deletes. *)
Lemma C2_strip_not_idempotent :
  Client.strip (String ESC (String ESC "[A[B")) = String ESC "[B"
  /\ Client.strip (Client.strip (String ESC (String ESC "[A[B"))) = ""
  /\ Client.strip (Client.strip (String ESC (String ESC "[A[B")))
     <> Client.strip (String ESC (String ESC "[A[B")).
Proof. split; [reflexivity|]. split; [reflexivity|]. vm_compute. discriminate. Qed.

(** C2, amended: stripping is idempotent on every buffer in which each
    ESC byte starts a complete escape sequence. *)
Theorem C2_strip_idempotent_when_complete (b : string) :
  esc_complete b = true -> Client.strip (Client.strip b) = Client.strip b.
Proof. intros H. apply strip_esc_free. now apply strip_esc_complete. Qed.

(** C2, witness: a coloured word, each ESC of which starts a sequence. *)
Lemma C2_strip_idempotent_witness :
  esc_complete (String ESC "[0;31mred" ++ String ESC "[0m") = true
  /\ Client.strip (Client.strip (String ESC "[0;31mred" ++ String ESC "[0m"))
     = Client.strip (String ESC "[0;31mred" ++ String ESC "[0m").
Proof.
  split; [reflexivity|].
  apply (C2_strip_idempotent_when_complete (String ESC "[0;31mred" ++ String ESC "[0m")).
  reflexivity.
Defined.

(** C3, as stated, fails: a prompt line followed by a further line of
    output is matched, although no prompt ends the buffer. *)
Lemma C3_prompt_matched_before_more_output :
  Client.promptMatch ("SG2210XMP-M2#" ++ String LF "uptime") = true
  /\ ~ prompt_at_buffer_end ("SG2210XMP-M2#" ++ String LF "uptime").
Proof.
  split; [reflexivity|].
  intros (pre & p & ws & Hb & Hp & Hws).
  apply (f_equal (last_prev None)) in Hb. rewrite !last_prev_app in Hb.
  apply (prompt_text_last p (last_prev None pre)) in Hp.
  destruct (last_prev_all _ ws (last_prev (last_prev None pre) p) Hws)
    as [Hl | (c & Hl & Hc)]; rewrite Hl in Hb.
  - destruct Hp as [Hp | Hp]; rewrite Hp in Hb; discriminate.
  - vm_compute in Hb. injection Hb as <-. discriminate.
Qed.

(** C3, amended: the matcher reports a match exactly when a prompt text
    ends a line of the normalized buffer (the pattern is multi-line: white
    space may follow, then a line feed or the end of the buffer); in
    particular a buffer without [>] and [#], such as a prompt whose
    terminator has not arrived, is never matched. *)
Theorem C3_prompt_matched_at_line_end (b : string) :
  (Client.promptMatch b = true <-> prompt_at_line_end b)
  /\ (Client.promptMatch b = true -> has_byte ">" b || has_byte "#" b = true).
Proof.
  split; [apply promptMatch_iff|].
  intros H. apply promptMatch_iff in H as (pre & p & ws & rest & -> & Hp & _).
  apply prompt_text_has_terminator in Hp. rewrite !has_byte_app.
  apply orb_true_iff in Hp as [-> | ->]; rewrite ?orb_true_r; reflexivity.
Qed.

(** C3, witness: a prompt in configuration mode on the last line. *)
Lemma C3_prompt_matched_witness :
  Client.promptMatch ("show" ++ String LF "SG2210XMP-M2(config)# ") = true
  /\ prompt_at_line_end ("show" ++ String LF "SG2210XMP-M2(config)# ").
Proof.
  split; [reflexivity|].
  apply (proj1 (C3_prompt_matched_at_line_end _)). reflexivity.
Defined.

(** C4, as stated, fails: the write of the command reports an error, the
    read cycle then sees a prompt, and [RunCommand] returns a nil error. *)
Lemma C4_failed_write_nil_error :
  snd (Fprint true [] ("enable" ++ String CR (String LF ""))) <> None
  /\ fst (Client.RunCommand true [Client.Read "SG2210XMP-M2#" ErrNil] "enable"
            Client.NewClient)
     = Client.RunReturned "SG2210XMP-M2#" None.
Proof. split; [discriminate | reflexivity]. Qed.

(** C4, amended: [RunCommand] does not look at the result of the write;
    whether or not the write fails, it returns a non-nil error exactly
    when its read cycle does. *)
Theorem C4_error_only_from_read_cycle (wfail : bool) (evs : list Client.event)
    (cmd : string) (c : Client.Client) :
  Client.RunCommand wfail evs cmd c = Client.RunCommand (negb wfail) evs cmd c
  /\ forall e,
       (exists out, fst (Client.RunCommand wfail evs cmd c)
                    = Client.RunReturned out (Some e))
       <-> fst (Client.waitForPrompt evs
                  {| Client.outBuf := Client.outBuf c;
                     Client.stdin :=
                       (Client.stdin c ++ [(cmd ++ String CR (String LF ""))%string])%list |})
           = Client.Returned (Some e).
Proof.
  split; [reflexivity|]. intros e. rewrite RunCommand_unfold. cbv zeta.
  destruct (Client.waitForPrompt evs _) as [[[err|]|] c1]; simpl; split.
  - intros [out H]. now injection H as _ ->.
  - intros H. injection H as ->. eauto.
  - intros [out H]. discriminate.
  - discriminate.
  - intros [out H]. discriminate.
  - discriminate.
Qed.

(** C5, as stated, fails: removing the carriage return of ESC [ CR A joins
    the bytes into the escape sequence ESC [ A, which is returned. *)
Lemma C5_escape_sequence_returned :
  fst (Client.RunCommand false
         [Client.Read (String ESC ("[" ++ String CR ("A" ++ String LF "SG2210XMP-M2#")))
            ErrNil]
         "show" Client.NewClient)
  = Client.RunReturned (String ESC ("[A" ++ String LF "SG2210XMP-M2#")) None
  /\ Match Client.ansiEscape (String ESC ("[A" ++ String LF "SG2210XMP-M2#")) = true.
Proof. split; reflexivity. Qed.

(** C5, amended: the output of a successful [RunCommand] never contains a
    carriage return; it contains no ESC byte, hence no escape sequence,
    when every ESC byte in the accumulated bytes starts a complete escape
    sequence. *)
Theorem C5_output_normalized (wfail : bool) (evs : list Client.event) (cmd : string)
    (c c' : Client.Client) (out : string) :
  Client.RunCommand wfail evs cmd c = (Client.RunReturned out None, c') ->
  has_byte CR out = false
  /\ (esc_complete (Client.outBuf c ++ buffered evs "") = true ->
      has_byte ESC out = false /\ Match Client.ansiEscape out = false).
Proof.
  intros H. apply RunCommand_succeeded in H as [-> _]. split.
  - apply has_byte_RemoveByte_same.
  - intros Hc.
    assert (Hesc : has_byte ESC (RemoveByte CR
                     (Client.strip (Client.outBuf c ++ buffered evs ""))) = false)
      by (apply has_byte_RemoveByte_other; now apply strip_esc_complete).
    split; [exact Hesc | now apply no_match_without_esc].
Qed.

(** C5, witness: a bold word with a CR LF line end before the prompt. *)
Lemma C5_output_normalized_witness :
  Client.RunCommand false
    [Client.Read (String ESC ("[1mok" ++ String CR (String LF "SG2210XMP-M2#"))) ErrNil]
    "show" Client.NewClient
  = (Client.RunReturned ("ok" ++ String LF "SG2210XMP-M2#") None,
     {| Client.outBuf := ""; Client.stdin := ["show" ++ String CR (String LF "")] |})
  /\ has_byte CR ("ok" ++ String LF "SG2210XMP-M2#") = false
  /\ has_byte ESC ("ok" ++ String LF "SG2210XMP-M2#") = false.
Proof.
  split; [reflexivity|].
  pose proof (C5_output_normalized false
    [Client.Read (String ESC ("[1mok" ++ String CR (String LF "SG2210XMP-M2#"))) ErrNil]
    "show" Client.NewClient
    {| Client.outBuf := ""; Client.stdin := ["show" ++ String CR (String LF "")] |}
    ("ok" ++ String LF "SG2210XMP-M2#") eq_refl) as [Hcr Hesc].
  split; [exact Hcr | exact (proj1 (Hesc eq_refl))].
Defined.

(** C9: a call of [RunCommand] that returns an error leaves the bytes it
    received in [outBuf]; the next call that succeeds returns the
    normalized text of those stale bytes followed by its own, and only
    then resets the buffer.  When the stale bytes hold no ESC byte, the
    output is literally their text (without carriage returns) put before
    the output of the cycle. *)
Theorem C9_stale_bytes_returned (wfail1 wfail2 : bool) (evs1 evs2 : list Client.event)
    (cmd1 cmd2 out1 out2 : string) (e : Client.error) (c c1 c2 : Client.Client) :
  Client.RunCommand wfail1 evs1 cmd1 c = (Client.RunReturned out1 (Some e), c1) ->
  Client.RunCommand wfail2 evs2 cmd2 c1 = (Client.RunReturned out2 None, c2) ->
  Client.outBuf c1 = Client.outBuf c ++ buffered evs1 ""
  /\ out2 = RemoveByte CR
              (Client.strip (Client.outBuf c1 ++ buffered evs2 ""))
  /\ Client.outBuf c2 = ""
  /\ (has_byte ESC (Client.outBuf c1) = false ->
      out2 = RemoveByte CR (Client.outBuf c1)
             ++ RemoveByte CR (Client.strip (buffered evs2 ""))).
Proof.
  intros H1 H2.
  apply RunCommand_failed in H1 as [_ H1].
  apply RunCommand_succeeded in H2 as [-> H2].
  repeat split; auto.
  intros Hesc. now rewrite strip_app_esc_free, RemoveByte_app.
Qed.

(** C9, witness: a call that times out after "partial output", then a
    call that sees the prompt. *)
Lemma C9_stale_bytes_witness :
  Client.RunCommand false [Client.Read "partial output" ErrNil; Client.Timeout]
    "show version" Client.NewClient
  = (Client.RunReturned "" (Some Client.ErrTimeout),
     {| Client.outBuf := "partial output";
        Client.stdin := ["show version" ++ String CR (String LF "")] |})
  /\ fst (Client.RunCommand false [Client.Read "SG2210XMP-M2#" ErrNil] "show version"
            {| Client.outBuf := "partial output";
               Client.stdin := ["show version" ++ String CR (String LF "")] |})
     = Client.RunReturned "partial outputSG2210XMP-M2#" None
  /\ "partial outputSG2210XMP-M2#"
     = RemoveByte CR "partial output"
       ++ RemoveByte CR (Client.strip (buffered [Client.Read "SG2210XMP-M2#" ErrNil] "")).
Proof.
  split; [reflexivity|]. split; [reflexivity|].
  refine (proj2 (proj2 (proj2 (C9_stale_bytes_returned false false
    [Client.Read "partial output" ErrNil; Client.Timeout]
    [Client.Read "SG2210XMP-M2#" ErrNil]
    "show version" "show version" "" "partial outputSG2210XMP-M2#" Client.ErrTimeout
    Client.NewClient
    {| Client.outBuf := "partial output";
       Client.stdin := ["show version" ++ String CR (String LF "")] |}
    {| Client.outBuf := "";
       Client.stdin := ["show version" ++ String CR (String LF "");
                        "show version" ++ String CR (String LF "")] |}
    eq_refl eq_refl))) eq_refl).
Defined.

(** ** The table parsers *)

Module ParserClaimFacts.
Import Parser ParserFacts CountersFacts TableFacts.

Lemma HasPrefix_split pre : forall s, HasPrefix s pre = true -> exists r, s = pre ++ r.
Proof.
  induction pre as [|p pre IH]; intros s; simpl.
  - intros _. now exists s.
  - destruct s as [|c s]; [discriminate|]. intros H.
    apply andb_true_iff in H as [Hc Hs]. apply Ascii.eqb_eq in Hc as <-.
    destruct (IH _ Hs) as [r ->]. now exists r.
Qed.

Lemma declares_port_row line port cur :
  declares_port line port = true -> counters_row line cur = CntPort port.
Proof.
  unfold declares_port, is_port_line, counters_row. intros H.
  apply andb_true_iff in H as [Hp Hn]. rewrite Hp.
  apply String.eqb_eq in Hn as <-.
  destruct (HasPrefix_split _ _ Hp) as [r ->]. reflexivity.
Qed.

(** A key/value line with a bad value under a declared port fails the call. *)
Lemma counters_bad_value_fails pre header port mid line post :
  declares_port header port = true -> port <> "" ->
  (forall l, In l mid -> is_port_line l = false) ->
  bad_counter_value line = true ->
  snd (counters_loop (pre ++ header :: mid ++ line :: post) ∅ "") <> None.
Proof.
  intros Hdecl Hport Hmid Hbad Hnone.
  destruct (counters_loop_reaches pre ∅ "" (header :: mid ++ line :: post))
    as (stats1 & cur1 & Heq & _); [now intros ? | exact Hnone |].
  rewrite Heq in Hnone. rewrite counters_loop_cons in Hnone.
  rewrite (declares_port_row _ _ cur1 Hdecl) in Hnone.
  destruct (counters_loop_same_port mid (<[port := ∅]> stats1) port (line :: post)
              Hmid Hnone) as (stats2 & Heq2).
  rewrite Heq2, counters_loop_cons in Hnone.
  destruct (counters_row_bad line port Hport Hbad) as [e He].
  rewrite He in Hnone. discriminate.
Qed.


End ParserClaimFacts.
Import ParserClaimFacts.

(** C6, as stated, fails: the power-table parser is not the only one that
    fails the whole call; the counters parser does so for a key/value
    line whose value has no digit. *)
Lemma C6_counters_parser_fails_too :
  bad_counter_value "InOctets: ," = true
  /\ snd (Parser.ParseInterfaceCounters ("Port: Gi1/0/1" ++ String LF "InOctets: ,"))
     = Some (Parser.InvalidNumber "InOctets" ErrSyntax).
Proof. split; reflexivity. Qed.

(** C6, amended: [ParsePoETable] fails the whole call when an eligible
    row has a numeric field that does not parse; [ParseMACTable],
    [ParseInterfaceStatus] and [ParseInterfaceConfig] never fail; but
    [ParseInterfaceCounters] also fails the whole call, when a key/value
    line under a declared port has a value that is not a [uint64], and so
    do [ParseCPUUtilization] and [ParseMemoryUtilization] when a matched
    number does not fit an [int]. *)
Theorem C6_numeric_failure_policy :
  (forall output line,
     In line (Split output LF) -> poe_eligible line = true ->
     snd (ParseFloat (field line 1)) <> None \/ snd (Atoi (field line 2)) <> None
       \/ snd (ParseFloat (field line 3)) <> None ->
     snd (Parser.ParsePoETable output) <> None)
  /\ (forall output,
        snd (Parser.ParseMACTable output) = None
        /\ snd (Parser.ParseInterfaceStatus output) = None
        /\ snd (Parser.ParseInterfaceConfig output) = None)
  /\ (forall output pre header port mid line post,
        Split output LF = (pre ++ header :: mid ++ line :: post)%list ->
        declares_port header port = true -> port <> "" ->
        (forall l, In l mid -> is_port_line l = false) ->
        bad_counter_value line = true ->
        snd (Parser.ParseInterfaceCounters output) <> None)
  /\ (forall output i,
        length (FindStringSubmatch Parser.cpuRegex output) = 4%nat ->
        (1 <= i <= 3)%nat ->
        snd (Atoi (Parser.index (FindStringSubmatch Parser.cpuRegex output) i)) <> None ->
        snd (Parser.ParseCPUUtilization output) <> None)
  /\ (forall output i,
        length (FindStringSubmatch Parser.memRegex output) = 3%nat ->
        (1 <= i <= 2)%nat ->
        snd (Atoi (Parser.index (FindStringSubmatch Parser.memRegex output) i)) <> None ->
        snd (Parser.ParseMemoryUtilization output) <> None).
Proof.
  split; [|split; [|split; [|split]]].
  - intros output line Hin Hel Hbad. unfold Parser.ParsePoETable.
    eapply ParserFacts.poe_loop_fails; [exact Hin|].
    now apply ParserFacts.poe_row_bad.
  - intros output. repeat split.
  - intros output pre header port mid line post Hs Hdecl Hport Hmid Hbad.
    unfold Parser.ParseInterfaceCounters. rewrite Hs.
    now apply (counters_bad_value_fails pre header port mid line post).
  - intros output i Hlen Hi Hbad. unfold Parser.ParseCPUUtilization.
    rewrite Hlen. cbn [Nat.eqb].
    destruct (Atoi (Parser.index _ 1)) as [v1 [e1|]] eqn:E1; [discriminate|].
    destruct (Atoi (Parser.index _ 2)) as [v2 [e2|]] eqn:E2; [discriminate|].
    destruct (Atoi (Parser.index _ 3)) as [v3 [e3|]] eqn:E3; [discriminate|].
    assert (i = 1 \/ i = 2 \/ i = 3)%nat as [-> | [-> | ->]] by lia;
      [rewrite E1 in Hbad | rewrite E2 in Hbad | rewrite E3 in Hbad]; now elim Hbad.
  - intros output i Hlen Hi Hbad. unfold Parser.ParseMemoryUtilization.
    rewrite Hlen. cbn [Nat.eqb].
    destruct (Atoi (Parser.index _ 1)) as [v1 [e1|]] eqn:E1; [discriminate|].
    destruct (Atoi (Parser.index _ 2)) as [v2 [e2|]] eqn:E2; [discriminate|].
    assert (i = 1 \/ i = 2)%nat as [-> | ->] by lia;
      [rewrite E1 in Hbad | rewrite E2 in Hbad]; now elim Hbad.
Qed.

(** C6, witness: one failing input for each of the four failing parsers. *)
Lemma C6_numeric_failure_witness :
  snd (Parser.ParsePoETable "Tw1/0/1 x 84 52.0 Class1 ON") <> None
  /\ snd (Parser.ParseInterfaceCounters ("Port: Gi1/0/1" ++ String LF "InOctets: ,")) <> None
  /\ snd (Parser.ParseCPUUtilization "| 10% 99999999999999999999% 30%") <> None
  /\ snd (Parser.ParseMemoryUtilization "1 | 99999999999999999999%") <> None.
Proof.
  destruct C6_numeric_failure_policy as (Hpoe & _ & Hcnt & Hcpu & Hmem).
  split; [|split; [|split]].
  - apply (Hpoe "Tw1/0/1 x 84 52.0 Class1 ON" "Tw1/0/1 x 84 52.0 Class1 ON");
      [now left | reflexivity | left; discriminate].
  - apply (Hcnt ("Port: Gi1/0/1" ++ String LF "InOctets: ,") []
             "Port: Gi1/0/1" "Gi1/0/1" [] "InOctets: ," []);
      [reflexivity | reflexivity | discriminate | intros l [] | reflexivity].
  - apply (Hcpu "| 10% 99999999999999999999% 30%" 2%nat);
      [reflexivity | lia | discriminate].
  - apply (Hmem "1 | 99999999999999999999%" 2%nat);
      [reflexivity | lia | discriminate].
Defined.





(** C10: [ParseInterfaceStatus], [ParseInterfaceConfig] and
    [ParseMACTable] return a nil error for every input, and a line that
    does not have the expected shape (a header or separator, a wrong
    number of fields, a VLAN that is not a number) leaves no trace: the
    result is that of the input without the line. *)
Theorem C10_shape_mismatch_skipped :
  (forall output,
     snd (Parser.ParseInterfaceStatus output) = None
     /\ snd (Parser.ParseInterfaceConfig output) = None
     /\ snd (Parser.ParseMACTable output) = None)
  /\ (forall output output' l1 line l2,
        Split output LF = (l1 ++ line :: l2)%list ->
        Split output' LF = (l1 ++ l2)%list ->
        (status_shape line = false ->
         Parser.ParseInterfaceStatus output = Parser.ParseInterfaceStatus output')
        /\ (config_shape line = false ->
            Parser.ParseInterfaceConfig output = Parser.ParseInterfaceConfig output')
        /\ (mac_shape line = false ->
            Parser.ParseMACTable output = Parser.ParseMACTable output')).
Proof.
  split; [intros output; repeat split|].
  intros output output' l1 line l2 Hs Hs'. repeat split; intros Hshape.
  - unfold Parser.ParseInterfaceStatus. rewrite Hs, Hs', !TableFacts.status_loop_spec.
    f_equal. f_equal. apply TableFacts.omap_drop. now apply TableFacts.status_row_shape.
  - unfold Parser.ParseInterfaceConfig. rewrite Hs, Hs', !TableFacts.config_loop_spec.
    f_equal. f_equal. apply TableFacts.omap_drop. now apply TableFacts.config_row_shape.
  - unfold Parser.ParseMACTable. rewrite Hs, Hs', !TableFacts.mac_loop_spec.
    f_equal. f_equal. apply TableFacts.omap_drop. now apply TableFacts.mac_row_shape.
Qed.

(** C10, witness: a MAC row whose VLAN is not a number is dropped. *)
Lemma C10_shape_mismatch_witness :
  Parser.ParseMACTable
    ("00:11:22:33:44:55 one Gi1/0/1 dynamic aging" ++ String LF
       "00:11:22:33:44:66 1 Gi1/0/2 dynamic aging")
  = Parser.ParseMACTable "00:11:22:33:44:66 1 Gi1/0/2 dynamic aging".
Proof.
  apply (proj2 C10_shape_mismatch_skipped _ _ []
           "00:11:22:33:44:55 one Gi1/0/1 dynamic aging"
           ["00:11:22:33:44:66 1 Gi1/0/2 dynamic aging"]);
    reflexivity.
Defined.

(** * Further properties of the code *)

(** ** The read cycle of the client *)

Module ReadCycleFacts.
Import Client.

Lemma waitLoop_outcome_indep evs : forall tmp c c',
  fst (waitLoop evs tmp c) = fst (waitLoop evs tmp c').
Proof.
  induction evs as [|e evs IH]; intros tmp c c'; [reflexivity|].
  destruct e as [ | | chunk err]; try reflexivity.
  destruct err; try reflexivity;
    (destruct chunk as [|x chunk]; simpl; [apply IH|]);
    (destruct (promptMatch _); [reflexivity | apply IH]).
Qed.

Lemma waitLoop_success evs : forall tmp c,
  fst (waitLoop evs tmp c) = Returned None ->
  promptMatch (strip (tmp ++ buffered evs tmp)) = true.
Proof.
  induction evs as [|e evs IH]; intros tmp c; [discriminate|].
  destruct e as [ | | chunk err]; try discriminate.
  destruct err; try discriminate;
    (destruct chunk as [|x chunk]; simpl; [apply IH|]);
    (destruct (promptMatch (strip (tmp ++ String x chunk))) eqn:E;
     [intros _; exact E
     | intros H; apply IH in H; now rewrite StringFacts.app_assoc in H]).
Qed.

Lemma waitLoop_skip_empty l1 : forall e l2 tmp c,
  empty_read e = true ->
  waitLoop (l1 ++ e :: l2) tmp c = waitLoop (l1 ++ l2) tmp c.
Proof.
  induction l1 as [|a l1 IH]; intros e l2 tmp c He.
  - destruct e as [ | | [|x chunk] [ | | msg]]; try discriminate; reflexivity.
  - simpl app. destruct a as [ | | chunk err]; try reflexivity.
    destruct err; try reflexivity;
      (destruct chunk as [|x chunk]; simpl; [now apply IH|]);
      (destruct (promptMatch _); [reflexivity | now apply IH]).
Qed.

Lemma waitLoop_filter_empty evs : forall tmp c,
  waitLoop evs tmp c = waitLoop (List.filter (fun e => negb (empty_read e)) evs) tmp c.
Proof.
  induction evs as [|e evs IH]; intros tmp c; [reflexivity|].
  destruct e as [ | | [|x chunk] [ | | msg]]; try reflexivity;
    try (simpl; apply IH);
    (simpl; destruct (promptMatch _); [reflexivity | apply IH]).
Qed.

Lemma waitLoop_only_empty n : forall tmp c,
  waitLoop (List.repeat (Read "" ErrEOF) n) tmp c = (Reading, c).
Proof. induction n as [|n IH]; intros tmp c; [reflexivity | apply IH]. Qed.

Lemma buffered_prefix_of_chunks evs : forall tmp,
  exists n, buffered evs tmp = chunks (List.firstn n evs).
Proof.
  induction evs as [|e evs IH]; intros tmp.
  - exists 0%nat. reflexivity.
  - destruct e as [ | | chunk err]; try (exists 0%nat; reflexivity).
    destruct err; try (exists 0%nat; reflexivity);
      (destruct chunk as [|x chunk];
        [destruct (IH tmp) as [n Hn]; exists (S n); exact Hn|]);
      simpl; (destruct (promptMatch _);
        [exists 1%nat; simpl; now rewrite StringFacts.app_nil_r
        |destruct (IH (tmp ++ String x chunk)) as [n Hn]; exists (S n); simpl;
         now rewrite Hn]).
Qed.

Lemma all_RemoveByte_id (P : ascii -> bool) c s :
  P c = false -> all P s = true -> RemoveByte c s = s.
Proof.
  intros Hc. induction s as [|a s IH]; simpl; [reflexivity|].
  intros H. apply andb_true_iff in H as [Ha Hs].
  destruct (Ascii.eqb a c) eqn:E.
  - apply Ascii.eqb_eq in E as ->. congruence.
  - now rewrite IH.
Qed.

Lemma RemoveByte_absent c s : has_byte c s = false -> RemoveByte c s = s.
Proof.
  induction s as [|a s IH]; simpl; [reflexivity|].
  intros H. apply orb_false_iff in H as [-> Hs]. now rewrite IH.
Qed.

Lemma prompt_text_without_CR p : prompt_text p -> prompt_text (RemoveByte CR p).
Proof.
  intros (unit & mode & term & -> & Hunit & Hmode & Hterm).
  exists (RemoveByte CR unit), (RemoveByte CR mode), term.
  split; [|split; [|split]].
  - rewrite !RemoveByte_app. f_equal. f_equal. f_equal.
    destruct Hterm as [-> | ->]; reflexivity.
  - destruct Hunit as [-> | (d & ds & -> & Hall)]; [now left | right].
    exists d, ds. split; [|exact Hall].
    rewrite RemoveByte_app. f_equal.
    now apply (all_RemoveByte_id is_digit).
  - destruct Hmode as [-> | (body & -> & Hbody)]; [now left | right].
    exists (RemoveByte CR body). split.
    + now rewrite !RemoveByte_app.
    + now apply has_byte_RemoveByte_other.
  - exact Hterm.
Qed.

End ReadCycleFacts.
Import ReadCycleFacts.

(** X1: whether and how [waitForPrompt] returns depends on the bytes read
    during the call only, not on what [outBuf] already holds; so does the
    error of [RunCommand], although its output is built from all of
    [outBuf]. *)
Theorem X1_detection_ignores_stale_buffer (wfail : bool) (evs : list Client.event)
    (cmd : string) (c c' : Client.Client) :
  fst (Client.waitForPrompt evs c) = fst (Client.waitForPrompt evs c')
  /\ forall err,
       (exists out, fst (Client.RunCommand wfail evs cmd c) = Client.RunReturned out err)
       <-> (exists out, fst (Client.RunCommand wfail evs cmd c') = Client.RunReturned out err).
Proof.
  split; [apply waitLoop_outcome_indep|].
  intros err. rewrite !RunCommand_unfold. cbv zeta. unfold Client.waitForPrompt.
  match goal with |- context [Client.waitLoop evs "" ?a] =>
    match goal with |- context [Client.waitLoop evs "" ?b] =>
      lazymatch a with b => fail | _ =>
        pose proof (waitLoop_outcome_indep evs "" a b) as Hi end end end.
  do 2 match goal with |- context [Client.waitLoop evs "" ?a] =>
    destruct (Client.waitLoop evs "" a) as [[[?|]|] ?] end;
    simpl in Hi; try discriminate; try (injection Hi as ->);
    split; intros [out H]; try discriminate; injection H as _ <-; eauto.
Qed.

(** X2: a successful [RunCommand] on a client whose [outBuf] is empty
    returns the prompt with the output: the text returned contains a
    prompt text, and the bytes read during the call, stripped, end a line
    with a prompt. *)
Theorem X2_output_includes_prompt (wfail : bool) (evs : list Client.event) (cmd : string)
    (c c' : Client.Client) (out : string) :
  Client.outBuf c = "" ->
  Client.RunCommand wfail evs cmd c = (Client.RunReturned out None, c') ->
  prompt_at_line_end (Client.strip (buffered evs ""))
  /\ exists p, prompt_text p /\ occurs p out.
Proof.
  intros Hbuf H. pose proof H as H'.
  apply RunCommand_succeeded in H' as [-> _]. rewrite Hbuf. simpl.
  assert (Hm : Client.promptMatch (Client.strip (buffered evs "")) = true).
  { rewrite RunCommand_unfold in H. cbv zeta in H. unfold Client.waitForPrompt in H.
    match type of H with context [Client.waitLoop evs "" ?a] =>
      pose proof (waitLoop_success evs "" a) as Hs;
      destruct (Client.waitLoop evs "" a) as [[[?|]|] ?] end;
      try discriminate. now apply Hs. }
  apply promptMatch_iff in Hm. split; [exact Hm|].
  destruct Hm as (pre & p & ws & rest & -> & Hp & _).
  exists (RemoveByte CR p). split; [now apply prompt_text_without_CR|].
  exists (RemoveByte CR pre), (RemoveByte CR (ws ++ rest)).
  now rewrite !RemoveByte_app.
Qed.

(** X2, witness: one chunk with a line of output and the prompt. *)
Lemma X2_output_includes_prompt_witness :
  exists p, prompt_text p /\ occurs p ("uptime 3 days" ++ String LF "SG2210XMP-M2#").
Proof.
  exact (proj2 (X2_output_includes_prompt false
    [Client.Read ("uptime 3 days" ++ String CR (String LF "SG2210XMP-M2#")) ErrNil]
    "show uptime" Client.NewClient
    {| Client.outBuf := "";
       Client.stdin := ["show uptime" ++ String CR (String LF "")] |}
    ("uptime 3 days" ++ String LF "SG2210XMP-M2#") eq_refl eq_refl)).
Defined.

(** X3: reads that bring no data, with a nil error or [io.EOF], do not
    count: the result of the read cycle is that of the other iterations
    alone.  In particular the loop does not end at end of stream: after
    any number of empty reads with [io.EOF] it is still reading. *)
Theorem X3_empty_reads_ignored (evs : list Client.event) (c : Client.Client) (n : nat) :
  Client.waitForPrompt evs c
  = Client.waitForPrompt (List.filter (fun e => negb (empty_read e)) evs) c
  /\ Client.waitForPrompt (List.repeat (Client.Read "" ErrEOF) n) c = (Client.Reading, c).
Proof. split; [apply waitLoop_filter_empty | apply waitLoop_only_empty]. Qed.

(** X4: for text without ESC bytes a successful [RunCommand] on an empty
    [outBuf] loses nothing but the carriage returns: the output is the
    bytes read, in order, without them; the bytes read are a prefix of
    what the transport delivered. *)
Theorem X4_plain_text_returned (wfail : bool) (evs : list Client.event) (cmd : string)
    (c c' : Client.Client) (out : string) :
  Client.outBuf c = "" ->
  has_byte ESC (buffered evs "") = false ->
  Client.RunCommand wfail evs cmd c = (Client.RunReturned out None, c') ->
  out = RemoveByte CR (buffered evs "")
  /\ (has_byte CR (buffered evs "") = false -> out = buffered evs "")
  /\ exists n, buffered evs "" = chunks (List.firstn n evs).
Proof.
  intros Hbuf Hesc H. apply RunCommand_succeeded in H as [-> _].
  rewrite Hbuf. simpl. rewrite (strip_esc_free _ Hesc).
  split; [reflexivity|]. split; [apply RemoveByte_absent|].
  apply buffered_prefix_of_chunks.
Qed.

(** X4, witness: two chunks of plain text, then an event never reached. *)
Lemma X4_plain_text_witness :
  "PoE on" ++ String LF "SG2210XMP-M2>"
  = RemoveByte CR
      (buffered [Client.Read ("PoE on" ++ String CR (String LF "SG2210")) ErrNil;
                 Client.Read "XMP-M2>" ErrNil; Client.Timeout] "").
Proof.
  exact (proj1 (X4_plain_text_returned false
    [Client.Read ("PoE on" ++ String CR (String LF "SG2210")) ErrNil;
     Client.Read "XMP-M2>" ErrNil; Client.Timeout]
    "show" Client.NewClient
    {| Client.outBuf := ""; Client.stdin := ["show" ++ String CR (String LF "")] |}
    ("PoE on" ++ String LF "SG2210XMP-M2>") eq_refl eq_refl eq_refl)).
Defined.

(** ** Connecting, running commands, closing *)

Module LifecycleFacts.
Import Client Lifecycle.

Lemma Connect_io env evs c :
  io (snd (Connect env evs c)) = io c
  \/ (dial_err env = None /\ session_err env = None /\ stdin_pipe_err env = None
      /\ stdout_pipe_err env = None /\ pty_err env = None /\ shell_err env = None
      /\ io (snd (Connect env evs c)) = snd (waitForPrompt evs (io c))).
Proof.
  unfold Connect.
  destruct (dial_err env); [now left|].
  destruct (session_err env); [now left|].
  destruct (stdin_pipe_err env); [now left|].
  destruct (stdout_pipe_err env); [now left|].
  destruct (pty_err env); [now left|].
  destruct (shell_err env); [now left|].
  right. repeat (split; [reflexivity|]). simpl.
  destruct (waitForPrompt evs (io c)) as [[[e|]|] io']; reflexivity.
Qed.

Lemma Connect_success env evs c c' :
  Connect env evs c = (ConnectReturned None, c') ->
  fst (waitForPrompt evs (io c)) = Returned None
  /\ io c' = snd (waitForPrompt evs (io c))
  /\ conn c' = true /\ session c' = true
  /\ calls c' = (calls c ++ [Dial; NewSession; StdinPipe; StdoutPipe; RequestPty; Shell])%list.
Proof.
  unfold Connect.
  destruct (dial_err env); [discriminate|].
  destruct (session_err env); [discriminate|].
  destruct (stdin_pipe_err env); [discriminate|].
  destruct (stdout_pipe_err env); [discriminate|].
  destruct (pty_err env); [discriminate|].
  destruct (shell_err env); [discriminate|].
  simpl. destruct (waitForPrompt evs (io c)) as [[[e|]|] io']; try discriminate.
  intros H. injection H as <-. simpl. repeat split.
  now rewrite <- !List.app_assoc.
Qed.

Lemma RunCommandOn_succeeded wfail evs cmd c out c2 :
  RunCommandOn wfail evs cmd c = (RunReturned out None, c2) ->
  out = RemoveByte CR (strip (outBuf (io c) ++ buffered evs "")) /\ outBuf (io c2) = "".
Proof.
  unfold RunCommandOn.
  destruct (RunCommand wfail evs cmd (io c)) as [r io'] eqn:E.
  intros H. injection H as -> <-. simpl. now apply RunCommand_succeeded in E.
Qed.



End LifecycleFacts.
Import LifecycleFacts.

(** X5: [Connect] returns nil exactly when the six calls on the SSH
    library succeed and the first read cycle finds a prompt.  Whatever
    its outcome, a following [Close] closes exactly the handles that
    [Connect] obtained, the session before the connection; on a client
    that never connected [Close] calls nothing. *)
Theorem X5_connect_close_handles (env : Lifecycle.ssh_env) (evs : list Client.event) :
  let c := snd (Lifecycle.Connect env evs Lifecycle.NewConn) in
  (fst (Lifecycle.Connect env evs Lifecycle.NewConn) = Lifecycle.ConnectReturned None
   <-> Lifecycle.dial_err env = None /\ Lifecycle.session_err env = None
       /\ Lifecycle.stdin_pipe_err env = None /\ Lifecycle.stdout_pipe_err env = None
       /\ Lifecycle.pty_err env = None /\ Lifecycle.shell_err env = None
       /\ fst (Client.waitForPrompt evs Client.NewClient) = Client.Returned None)
  /\ Lifecycle.calls (Lifecycle.Close c)
     = (Lifecycle.calls c
        ++ match Lifecycle.dial_err env, Lifecycle.session_err env with
           | Some _, _ => []
           | None, Some _ => [Lifecycle.ConnClose]
           | None, None => [Lifecycle.SessionClose; Lifecycle.ConnClose]
           end)%list
  /\ Lifecycle.Close Lifecycle.NewConn = Lifecycle.NewConn.
Proof.
  cbv zeta. unfold Lifecycle.Connect, Lifecycle.Close.
  destruct (Lifecycle.dial_err env);
    [simpl; repeat split; try discriminate; try (now rewrite List.app_nil_r);
     intros (H & _); discriminate|].
  destruct (Lifecycle.session_err env);
    [simpl; repeat split; try discriminate; intros (_ & H & _); discriminate|].
  destruct (Lifecycle.stdin_pipe_err env);
    [simpl; repeat split; try discriminate; intros (_ & _ & H & _); discriminate|].
  destruct (Lifecycle.stdout_pipe_err env);
    [simpl; repeat split; try discriminate; intros (_ & _ & _ & H & _); discriminate|].
  destruct (Lifecycle.pty_err env);
    [simpl; repeat split; try discriminate;
     intros (_ & _ & _ & _ & H & _); discriminate|].
  destruct (Lifecycle.shell_err env);
    [simpl; repeat split; try discriminate;
     intros (_ & _ & _ & _ & _ & H & _); discriminate|].
  simpl.
  destruct (Client.waitForPrompt evs Client.NewClient) as [[[e|]|] io']; simpl;
    repeat split; try discriminate; try reflexivity;
    try (intros (_ & _ & _ & _ & _ & _ & H); discriminate);
    now rewrite <- !List.app_assoc.
Qed.

(** X6: [Connect] does not reset [outBuf]: after a successful [Connect]
    the buffer holds the banner read up to the first prompt, and the
    first successful [RunCommand] returns that banner, normalized, in
    front of its own output. *)
Theorem X6_banner_in_first_output (env : Lifecycle.ssh_env) (banner evs : list Client.event)
    (wfail : bool) (cmd out : string) (c1 c2 : Lifecycle.Conn) :
  Lifecycle.Connect env banner Lifecycle.NewConn = (Lifecycle.ConnectReturned None, c1) ->
  Lifecycle.RunCommandOn wfail evs cmd c1 = (Client.RunReturned out None, c2) ->
  Client.outBuf (Lifecycle.io c1) = buffered banner ""
  /\ prompt_at_line_end (Client.strip (buffered banner ""))
  /\ out = RemoveByte CR (Client.strip (buffered banner "" ++ buffered evs ""))
  /\ Client.outBuf (Lifecycle.io c2) = "".
Proof.
  intros Hc Hr. apply Connect_success in Hc as (Hok & Hio & _).
  simpl in Hok, Hio.
  assert (Hbuf : Client.outBuf (Lifecycle.io c1) = buffered banner "").
  { rewrite Hio. unfold Client.waitForPrompt.
    now destruct (waitLoop_state banner "" Client.NewClient) as [-> _]. }
  apply RunCommandOn_succeeded in Hr as [-> Hr]. rewrite Hbuf.
  repeat split; auto.
  apply promptMatch_iff. now apply (waitLoop_success banner "" Client.NewClient).
Qed.

(** X6, witness: a banner line with the first prompt, then a command. *)
Lemma X6_banner_witness :
  "Welcome" ++ String LF ("SG2210XMP-M2>" ++ String LF "SG2210XMP-M2#")
  = RemoveByte CR
      (Client.strip
         (buffered [Client.Read ("Welcome" ++ String CR (String LF "SG2210XMP-M2>")) ErrNil] ""
          ++ buffered [Client.Read (String CR (String LF "SG2210XMP-M2#")) ErrNil] "")).
Proof.
  exact (proj1 (proj2 (proj2 (X6_banner_in_first_output
    (Lifecycle.mkEnv None None None None None None)
    [Client.Read ("Welcome" ++ String CR (String LF "SG2210XMP-M2>")) ErrNil]
    [Client.Read (String CR (String LF "SG2210XMP-M2#")) ErrNil]
    false "enable"
    ("Welcome" ++ String LF ("SG2210XMP-M2>" ++ String LF "SG2210XMP-M2#"))
    (Lifecycle.mkConn
       (Client.mkClient ("Welcome" ++ String CR (String LF "SG2210XMP-M2>")) [])
       true true
       [Lifecycle.Dial; Lifecycle.NewSession; Lifecycle.StdinPipe; Lifecycle.StdoutPipe;
        Lifecycle.RequestPty; Lifecycle.Shell])
    (Lifecycle.mkConn
       (Client.mkClient "" ["enable" ++ String CR (String LF "")])
       true true
       [Lifecycle.Dial; Lifecycle.NewSession; Lifecycle.StdinPipe; Lifecycle.StdoutPipe;
        Lifecycle.RequestPty; Lifecycle.Shell])
    eq_refl eq_refl)))).
Defined.



(** ** The one-off script *)

Module ScriptFacts.
Import Main.

Lemma script_prompt_in_client prev m rest :
  matches Main.promptRegex prev m rest -> matches Client.promptRegex prev m rest.
Proof.
  unfold Main.promptRegex, Client.promptRegex. intros H.
  apply matches_Cat in H as (nl & m1 & -> & Hnl & H).
  apply matches_Cat in H as (p & m2 & -> & Hp & Hrest).
  apply M_Cat; [exact Hnl|]. apply M_Cat; [|exact Hrest].
  apply matches_Group in Hp. apply M_Group.
  apply matches_Cat in Hp as (dev & p1 & -> & Hdev & Hp).
  apply M_Cat; [exact Hdev|].
  apply matches_Cat in Hp as (unit & p2 & -> & Hunit & Hp).
  apply M_Cat; [exact Hunit|].
  apply matches_Cat in Hp as (mode & t & -> & Hmode & Ht).
  apply M_Cat; [|exact Ht].
  apply matches_Opt in Hmode as [-> | Hmode]; [apply M_OptNone|].
  apply M_OptSome. apply matches_Group in Hmode. apply M_Group.
  apply matches_Cat in Hmode as (l & m3 & -> & Hl & Hmode).
  apply M_Cat; [exact Hl|].
  apply matches_Cat in Hmode as (body & r & -> & Hbody & Hr).
  apply M_Cat; [|exact Hr].
  apply matches_Plus in Hbody as (c & body' & -> & Hall). now apply M_Star.
Qed.

Lemma script_outcome_indep wfail evs pw : forall tmp s s',
  fst (waitLoop wfail evs pw tmp s) = fst (waitLoop wfail evs pw tmp s').
Proof.
  induction evs as [|e evs IH]; intros tmp s s'; [reflexivity|].
  destruct e as [ | [|x chunk] [ | | msg]]; try reflexivity;
    try (simpl; apply IH);
    (simpl; destruct (Contains _ "Password:"); [apply IH|];
     destruct (Match promptRegex _); [reflexivity | apply IH]).
Qed.

Lemma script_output_grows wfail evs pw : forall tmp s,
  exists n, fullOutput (snd (waitLoop wfail evs pw tmp s))
            = fullOutput s ++ script_chunks (List.firstn n evs).
Proof.
  induction evs as [|e evs IH]; intros tmp s.
  - exists 0%nat. simpl. now rewrite StringFacts.app_nil_r.
  - destruct e as [ | [|x chunk] [ | | msg]];
      try (exists 0%nat; simpl; now rewrite StringFacts.app_nil_r);
      try (destruct (IH tmp s) as [n Hn]; exists (S n); exact Hn);
      (simpl; destruct (Contains _ "Password:");
       [ match goal with |- context [waitLoop wfail evs pw ?t ?s'] =>
           destruct (IH t s') as [n Hn] end;
         exists (S n); rewrite Hn; simpl; now rewrite StringFacts.app_assoc
       | destruct (Match promptRegex _);
         [ exists 1%nat; simpl; now rewrite StringFacts.app_nil_r
         | match goal with |- context [waitLoop wfail evs pw ?t ?s'] =>
             destruct (IH t s') as [n Hn] end;
           exists (S n); rewrite Hn; simpl; now rewrite StringFacts.app_assoc ] ]).
Qed.



End ScriptFacts.
Import ScriptFacts.

(** X8: the prompt pattern of the script accepts less than that of the
    client: every buffer the script's pattern matches is matched by the
    client's, but a prompt with an empty pair of parentheses is matched
    by the client's pattern only. *)
Theorem X8_script_pattern_stricter :
  (forall b, Match Main.promptRegex b = true -> Match Client.promptRegex b = true)
  /\ Match Client.promptRegex "SG2210XMP-M2()#" = true
  /\ Match Main.promptRegex "SG2210XMP-M2()#" = false.
Proof.
  split; [|split; reflexivity].
  intros b H. apply Match_iff in H as (pre & m & rest & -> & Hm).
  apply Match_complete. now apply script_prompt_in_client.
Qed.

(** X8, witness: a prompt in configuration mode. *)
Lemma X8_script_pattern_witness :
  Match Main.promptRegex "SG2210XMP-M2(config)#" = true
  /\ Match Client.promptRegex "SG2210XMP-M2(config)#" = true.
Proof.
  split; [reflexivity|].
  apply (proj1 X8_script_pattern_stricter "SG2210XMP-M2(config)#"). reflexivity.
Defined.

(** X9: a read cycle of the script only appends to [fullOutput], and what
    it appends is the data read, in order, also across the writes of the
    password (which clear the matching window only); how the cycle ends
    does not depend on [fullOutput] or on what was written before. *)
Theorem X9_script_output_accumulates (wfail : bool) (evs : list Main.event)
    (password : string) (s s' : Main.session) :
  (exists n, Main.fullOutput (snd (Main.waitForPrompt wfail evs password s))
             = Main.fullOutput s ++ script_chunks (List.firstn n evs))
  /\ fst (Main.waitForPrompt wfail evs password s)
     = fst (Main.waitForPrompt wfail evs password s').
Proof. split; [apply script_output_grows | apply script_outcome_indep]. Qed.


(** ** The table parsers, further *)

Module TableExtraFacts.
Import Parser ParserFacts CountersFacts TableFacts.

Lemma Split_app_LF a b : Split (a ++ String LF b) LF = (Split a LF ++ Split b LF)%list.
Proof.
  induction a as [|c a IH]; [reflexivity|].
  change (String c a ++ String LF b) with (String c (a ++ String LF b)).
  cbn [Split]. rewrite IH. destruct (Ascii.eqb c LF); [reflexivity|].
  destruct (Split a LF) as [|hd tl] eqn:E; [|reflexivity].
  destruct a; simpl in E; [discriminate|].
  destruct (Ascii.eqb a LF); [discriminate|]. destruct (Split a0 LF); discriminate.
Qed.

(** *** The power table *)

Lemma poe_loop_error_nil lines : forall ports,
  snd (poe_loop lines ports) <> None -> fst (poe_loop lines ports) = ∅.
Proof.
  induction lines as [|l lines IH]; intros ports H; [now elim H|].
  rewrite poe_loop_cons in *. destruct (poe_row l); auto.
Qed.

Lemma poe_loop_error_indep lines : forall ports ports',
  snd (poe_loop lines ports) = snd (poe_loop lines ports').
Proof.
  induction lines as [|l lines IH]; intros ports ports'; [reflexivity|].
  rewrite !poe_loop_cons. destruct (poe_row l); auto.
Qed.

Lemma poe_loop_union lines : forall ports,
  snd (poe_loop lines ports) = None ->
  fst (poe_loop lines ports) = fst (poe_loop lines ∅) ∪ ports.
Proof.
  induction lines as [|l lines IH]; intros ports H.
  - simpl. now rewrite (left_id_L ∅ (∪)).
  - rewrite !poe_loop_cons in *. destruct (poe_row l) as [ | e | k v].
    + now apply IH.
    + discriminate.
    + rewrite (IH _ H).
      rewrite (IH (<[k := v]> ∅)) by (now rewrite (poe_loop_error_indep _ _ (<[k := v]> ports))).
      rewrite insert_empty, <- (assoc_L (∪)). f_equal.
      now rewrite insert_union_singleton_l.
Qed.

Lemma poe_loop_app l1 : forall l2 ports,
  snd (poe_loop l1 ports) = None ->
  poe_loop (l1 ++ l2) ports = poe_loop l2 (fst (poe_loop l1 ports)).
Proof.
  induction l1 as [|l l1 IH]; intros l2 ports H; [reflexivity|].
  simpl app. rewrite !poe_loop_cons in *.
  destruct (poe_row l); [now apply IH | discriminate | now apply IH].
Qed.

Lemma poe_loop_app_fails l1 : forall l2 ports,
  snd (poe_loop l1 ports) <> None -> poe_loop (l1 ++ l2) ports = poe_loop l1 ports.
Proof.
  induction l1 as [|l l1 IH]; intros l2 ports H; [now elim H|].
  simpl app. rewrite !poe_loop_cons in *. destruct (poe_row l); auto.
Qed.

Lemma poe_loop_keeps_row lines : forall (ports : gmap string PoEPort) k v,
  ports !! k = Some v -> no_poe_row k lines ->
  snd (poe_loop lines ports) = None ->
  fst (poe_loop lines ports) !! k = Some v.
Proof.
  induction lines as [|l lines IH]; intros ports k v Hk Hfresh H; [exact Hk|].
  rewrite poe_loop_cons in *.
  assert (Hfresh' : no_poe_row k lines) by (intros l' Hin; apply Hfresh; now right).
  destruct (poe_row l) as [ | e | iface port] eqn:Hrow.
  - now apply IH.
  - discriminate.
  - apply IH; auto. rewrite lookup_insert_ne; [exact Hk|].
    intros ->. now apply (Hfresh l (or_introl eq_refl) port).
Qed.

(** Where an entry of the table comes from: the table given to the loop,
    or the last row for its port. *)
Lemma poe_loop_origin lines : forall (ports : gmap string PoEPort) k v,
  snd (poe_loop lines ports) = None ->
  fst (poe_loop lines ports) !! k = Some v ->
  (ports !! k = Some v /\ no_poe_row k lines)
  \/ exists l1 line l2, lines = (l1 ++ line :: l2)%list
       /\ poe_row line = PoEEntry k v /\ no_poe_row k l2.
Proof.
  induction lines as [|l lines IH]; intros ports k v Hok Hk.
  - left. split; [exact Hk | intros l []].
  - rewrite poe_loop_cons in *.
    destruct (poe_row l) as [ | e | iface port] eqn:Hrow; [ | discriminate | ].
    + destruct (IH _ _ _ Hok Hk) as [[Hp Hno] | (l1 & line & l2 & -> & Hline & Hno)].
      * left. split; [exact Hp|]. intros l' [<- | Hin] v'; [congruence | now apply Hno].
      * right. exists (l :: l1), line, l2. auto.
    + destruct (IH _ _ _ Hok Hk) as [[Hp Hno] | (l1 & line & l2 & -> & Hline & Hno)].
      * destruct (decide (iface = k)) as [-> | Hne].
        -- rewrite lookup_insert_eq in Hp. injection Hp as ->.
           right. exists [], l, lines. auto.
        -- rewrite lookup_insert_ne in Hp by exact Hne.
           left. split; [exact Hp|].
           intros l' [<- | Hin] v'; [congruence | now apply Hno].
      * right. exists (l :: l1), line, l2. auto.
Qed.

(** *** The interface counters *)

Lemma counters_loop_error_nil lines : forall (stats : gmap string (gmap string N)) cur,
  snd (counters_loop lines stats cur) <> None -> fst (counters_loop lines stats cur) = ∅.
Proof.
  induction lines as [|l lines IH]; intros stats cur H; [now elim H|].
  rewrite counters_loop_cons in *. destruct (counters_row l cur); auto.
Qed.

Lemma counters_row_no_port line :
  is_port_line line = false -> counters_row line "" = CntSkip.
Proof. unfold is_port_line, counters_row. now intros ->. Qed.

Lemma counters_loop_before_header pre : forall rest (stats : gmap string (gmap string N)),
  (forall l, In l pre -> is_port_line l = false) ->
  counters_loop (pre ++ rest) stats "" = counters_loop rest stats "".
Proof.
  induction pre as [|l pre IH]; intros rest stats Hpre; [reflexivity|].
  simpl app. rewrite counters_loop_cons, counters_row_no_port by (apply Hpre; now left).
  apply IH. intros l' Hin. apply Hpre. now right.
Qed.

Lemma counters_loop_keeps_port lines : forall (stats : gmap string (gmap string N)) cur p,
  is_Some (stats !! p) -> snd (counters_loop lines stats cur) = None ->
  is_Some (fst (counters_loop lines stats cur) !! p).
Proof.
  induction lines as [|l lines IH]; intros stats cur p Hp H; [exact Hp|].
  rewrite counters_loop_cons in *.
  destruct (counters_row l cur) as [ | q | key val | e]; [ | | | discriminate].
  - now apply IH.
  - apply IH; [|exact H]. destruct (decide (q = p)) as [-> | Hne];
      [rewrite lookup_insert_eq; eauto | now rewrite lookup_insert_ne].
  - apply IH; [|exact H]. destruct (decide (cur = p)) as [-> | Hne];
      [rewrite lookup_insert_eq; eauto | now rewrite lookup_insert_ne].
Qed.

Lemma counters_declared_present pre : forall header p post,
  declares_port header p = true ->
  snd (counters_loop (pre ++ header :: post) ∅ "") = None ->
  is_Some (fst (counters_loop (pre ++ header :: post) ∅ "") !! p)
  /\ (post = [] -> fst (counters_loop (pre ++ header :: post) ∅ "") !! p = Some ∅).
Proof.
  intros header p post Hdecl Hnone.
  destruct (counters_loop_reaches pre ∅ "" (header :: post))
    as (stats1 & cur1 & Heq & _); [now intros ? | exact Hnone |].
  rewrite Heq in *. rewrite counters_loop_cons in *.
  rewrite (ParserClaimFacts.declares_port_row _ _ cur1 Hdecl) in *. split.
  - apply counters_loop_keeps_port; [|exact Hnone]. rewrite lookup_insert_eq. eauto.
  - intros ->. simpl. apply lookup_insert_eq.
Qed.

(** *** The utilization parsers *)

Lemma no_submatch_without r (c : ascii) s :
  (forall prev m rest, matches r prev m rest -> has_byte c m = true) ->
  has_byte c s = false -> FindStringSubmatch r s = [].
Proof.
  intros Hr Hs. unfold FindStringSubmatch.
  destruct (search (Group 0 r) None s _) as [cs|] eqn:E; [|reflexivity].
  apply search_sound in E as (pre & m & rest & cs' & -> & Hm & _).
  apply matches_Group, Hr in Hm.
  rewrite !has_byte_app, Hm, orb_true_r in Hs. discriminate.
Qed.

Lemma cpu_match_has_bar prev m rest :
  matches cpuRegex prev m rest -> has_byte "|" m = true.
Proof.
  unfold cpuRegex. intros H.
  apply matches_Cat in H as (m1 & m2 & -> & H1 & _).
  apply matches_Lit in H1 as ->. reflexivity.
Qed.

Lemma mem_match_has_bar prev m rest :
  matches memRegex prev m rest -> has_byte "|" m = true.
Proof.
  unfold memRegex. intros H.
  apply matches_Cat in H as (m0 & m1 & -> & _ & H).
  apply matches_Cat in H as (m2 & m3 & -> & _ & H).
  apply matches_Cat in H as (m4 & m5 & -> & _ & H).
  apply matches_Cat in H as (m6 & m7 & -> & H6 & _).
  apply matches_Lit in H6 as ->.
  rewrite !has_byte_app. cbn [has_byte]. rewrite Ascii.eqb_refl.
  now rewrite !orb_true_r.
Qed.

End TableExtraFacts.
Import TableExtraFacts.

(** X11: [ParsePoETable] and [ParseInterfaceCounters] return no partial
    table: whenever the error is not nil, the map returned is empty. *)
Theorem X11_no_partial_table (output : string) :
  (snd (Parser.ParsePoETable output) <> None -> fst (Parser.ParsePoETable output) = ∅)
  /\ (snd (Parser.ParseInterfaceCounters output) <> None ->
      fst (Parser.ParseInterfaceCounters output) = ∅).
Proof.
  split; [apply poe_loop_error_nil | apply counters_loop_error_nil].
Qed.

(** X11, witness: a row whose current is not a number, after a good row. *)
Lemma X11_no_partial_table_witness :
  fst (Parser.ParsePoETable
         ("Tw1/0/1 4.2 84 52.0 Class1 ON" ++ String LF "Tw1/0/2 4.2 8x 52.0 Class1 ON"))
  = ∅.
Proof.
  apply (proj1 (X11_no_partial_table
     ("Tw1/0/1 4.2 84 52.0 Class1 ON" ++ String LF "Tw1/0/2 4.2 8x 52.0 Class1 ON"))).
  discriminate.
Defined.

(** X12: when [ParsePoETable] succeeds, the table maps a port to a record
    exactly when that record is the one of the last row for the port:
    some line yields the entry and no later line yields an entry for the
    same port. *)
Theorem X12_poe_last_row_wins (output : string) (m : gmap string Parser.PoEPort)
    (k : string) (v : Parser.PoEPort) :
  Parser.ParsePoETable output = (m, None) ->
  (m !! k = Some v
   <-> exists l1 line l2,
         Split output LF = (l1 ++ line :: l2)%list
         /\ poe_row line = PoEEntry k v /\ no_poe_row k l2).
Proof.
  unfold Parser.ParsePoETable. intros H.
  assert (Hok : snd (Parser.poe_loop (Split output LF) ∅) = None) by now rewrite H.
  assert (Hm : m = fst (Parser.poe_loop (Split output LF) ∅)) by now rewrite H.
  subst m. clear H. split.
  - intros Hk. destruct (poe_loop_origin _ _ _ _ Hok Hk) as [[Hp _] | Hex];
      [now rewrite lookup_empty in Hp | exact Hex].
  - intros (l1 & line & l2 & Hs & Hline & Hno). rewrite Hs in *.
    destruct (ParserFacts.poe_loop_reaches l1 ∅ (line :: l2) Hok) as [ports Heq].
    rewrite Heq in *. rewrite ParserFacts.poe_loop_cons, Hline in *.
    apply poe_loop_keeps_row; auto. apply lookup_insert_eq.
Qed.

(** X12, witness: two rows for the same port; the second one is kept. *)
Lemma X12_poe_last_row_witness :
  fst (Parser.ParsePoETable
         ("Tw1/0/1 4.2 84 52.0 Class1 ON" ++ String LF "Tw1/0/1 0.0 0 0.0 Class0 OFF"))
    !! "Tw1/0/1"
  = Some {| Parser.PowerWatts := Finite false 0; Parser.CurrentMA := 0;
            Parser.VoltageV := Finite false 0; Parser.PDClass := "Class0";
            Parser.Status := "OFF" |}.
Proof.
  apply (proj2 (X12_poe_last_row_wins
    ("Tw1/0/1 4.2 84 52.0 Class1 ON" ++ String LF "Tw1/0/1 0.0 0 0.0 Class0 OFF")
    _ "Tw1/0/1" _ eq_refl)).
  exists ["Tw1/0/1 4.2 84 52.0 Class1 ON"], "Tw1/0/1 0.0 0 0.0 Class0 OFF", [].
  split; [reflexivity|]. split; [reflexivity | intros l []].
Defined.

(** X13: [ParsePoETable] composes over inputs joined by a line feed: when
    both parts parse, the whole parses to the union of the two tables
    with the second part winning on common ports; when the first part
    fails, the whole fails with the same error. *)
Theorem X13_poe_table_of_joined_inputs (a b : string) :
  (forall ma mb,
     Parser.ParsePoETable a = (ma, None) -> Parser.ParsePoETable b = (mb, None) ->
     Parser.ParsePoETable (a ++ String LF b) = (mb ∪ ma, None))
  /\ (snd (Parser.ParsePoETable a) <> None ->
      Parser.ParsePoETable (a ++ String LF b) = Parser.ParsePoETable a)
  /\ (snd (Parser.ParsePoETable a) = None ->
      snd (Parser.ParsePoETable (a ++ String LF b)) = snd (Parser.ParsePoETable b)).
Proof.
  unfold Parser.ParsePoETable. rewrite Split_app_LF. split; [|split].
  - intros ma mb Ha Hb.
    assert (Ha' : snd (Parser.poe_loop (Split a LF) ∅) = None) by now rewrite Ha.
    rewrite (poe_loop_app _ _ _ Ha'), Ha. simpl.
    assert (Hb' : snd (Parser.poe_loop (Split b LF) ma) = None)
      by (rewrite (poe_loop_error_indep _ _ ∅); now rewrite Hb).
    rewrite (surjective_pairing (Parser.poe_loop (Split b LF) ma)), Hb'.
    rewrite (poe_loop_union _ _ Hb'), Hb. reflexivity.
  - intros Ha. now apply poe_loop_app_fails.
  - intros Ha. rewrite (poe_loop_app _ _ _ Ha). apply poe_loop_error_indep.
Qed.

(** X13, witness: two one-row tables. *)
Lemma X13_poe_joined_witness :
  Parser.ParsePoETable
    ("Tw1/0/1 4.2 84 52.0 Class1 ON" ++ String LF "Tw1/0/2 1.5 30 52.0 Class2 ON")
  = (fst (Parser.ParsePoETable "Tw1/0/2 1.5 30 52.0 Class2 ON")
     ∪ fst (Parser.ParsePoETable "Tw1/0/1 4.2 84 52.0 Class1 ON"), None).
Proof.
  apply (proj1 (X13_poe_table_of_joined_inputs
    "Tw1/0/1 4.2 84 52.0 Class1 ON" "Tw1/0/2 1.5 30 52.0 Class2 ON"));
    reflexivity.
Defined.

(** X14: [ParseInterfaceStatus], [ParseInterfaceConfig] and
    [ParseMACTable] work line by line: the result for two inputs joined
    by a line feed is the result for the first followed by the result for
    the second. *)
Theorem X14_line_parsers_compose (a b : string) :
  fst (Parser.ParseInterfaceStatus (a ++ String LF b))
  = (fst (Parser.ParseInterfaceStatus a) ++ fst (Parser.ParseInterfaceStatus b))%list
  /\ fst (Parser.ParseInterfaceConfig (a ++ String LF b))
     = (fst (Parser.ParseInterfaceConfig a) ++ fst (Parser.ParseInterfaceConfig b))%list
  /\ fst (Parser.ParseMACTable (a ++ String LF b))
     = (fst (Parser.ParseMACTable a) ++ fst (Parser.ParseMACTable b))%list.
Proof.
  unfold Parser.ParseInterfaceStatus, Parser.ParseInterfaceConfig, Parser.ParseMACTable.
  cbn [fst]. rewrite Split_app_LF.
  rewrite !TableFacts.status_loop_spec, !TableFacts.config_loop_spec,
    !TableFacts.mac_loop_spec.
  cbn [app]. now rewrite !omap_app.
Qed.

(** X15: [ParseInterfaceCounters] ignores every line before the first
    port header, whatever it holds: an input without a port header gives
    the empty table and a nil error, and lines put before an input that
    are no port headers do not change its result. *)
Theorem X15_counters_need_a_header :
  (forall output,
     (forall l, In l (Split output LF) -> is_port_line l = false) ->
     Parser.ParseInterfaceCounters output = (∅, None))
  /\ (forall pre output,
        (forall l, In l (Split pre LF) -> is_port_line l = false) ->
        Parser.ParseInterfaceCounters (pre ++ String LF output)
        = Parser.ParseInterfaceCounters output).
Proof.
  unfold Parser.ParseInterfaceCounters. split.
  - intros output H.
    rewrite <- (List.app_nil_r (Split output LF)).
    now rewrite counters_loop_before_header.
  - intros pre output H. rewrite Split_app_LF.
    now apply counters_loop_before_header.
Qed.

(** X15, witness: a key/value line with a bad value before the header. *)
Lemma X15_counters_header_witness :
  Parser.ParseInterfaceCounters
    ("InOctets: ," ++ String LF ("Port: Gi1/0/1" ++ String LF "InOctets: 7"))
  = Parser.ParseInterfaceCounters ("Port: Gi1/0/1" ++ String LF "InOctets: 7").
Proof.
  apply (proj2 X15_counters_need_a_header "InOctets: ,").
  intros l [<- | []]. reflexivity.
Defined.

(** X16: when [ParseInterfaceCounters] succeeds, every port that a header
    line declares has an entry in the table, also when no counter
    follows; a header on the last line leaves that port with an empty
    entry, whatever was counted for it before. *)
Theorem X16_declared_ports_present (output : string) (pre post : list string)
    (header p : string) :
  Split output LF = (pre ++ header :: post)%list ->
  declares_port header p = true ->
  snd (Parser.ParseInterfaceCounters output) = None ->
  is_Some (fst (Parser.ParseInterfaceCounters output) !! p)
  /\ (post = [] -> fst (Parser.ParseInterfaceCounters output) !! p = Some ∅).
Proof.
  unfold Parser.ParseInterfaceCounters. intros Hs Hdecl Hok. rewrite Hs in *.
  now apply counters_declared_present.
Qed.

(** X16, witness: a port counted, then declared again on the last line. *)
Lemma X16_declared_ports_witness :
  fst (Parser.ParseInterfaceCounters
         ("Port: Gi1/0/1" ++ String LF ("InOctets: 7" ++ String LF "Port: Gi1/0/1")))
    !! "Gi1/0/1"
  = Some ∅.
Proof.
  apply (proj2 (X16_declared_ports_present
    ("Port: Gi1/0/1" ++ String LF ("InOctets: 7" ++ String LF "Port: Gi1/0/1"))
    ["Port: Gi1/0/1"; "InOctets: 7"] [] "Port: Gi1/0/1" "Gi1/0/1"
    eq_refl eq_refl eq_refl) eq_refl).
Defined.

(** X17: an input without the byte [|] (the empty input among them) makes
    [ParseCPUUtilization] and [ParseMemoryUtilization] return the zero
    record with their "unable to parse" error. *)
Theorem X17_utilization_needs_bar (output : string) :
  has_byte "|" output = false ->
  Parser.ParseCPUUtilization output
  = (Parser.mkCPU 0 0 0, Some (Parser.UnableToParse "cpu utilization"))
  /\ Parser.ParseMemoryUtilization output
     = (Parser.mkMem 0 0, Some (Parser.UnableToParse "memory utilization")).
Proof.
  intros H. unfold Parser.ParseCPUUtilization, Parser.ParseMemoryUtilization.
  rewrite (no_submatch_without Parser.cpuRegex "|" output cpu_match_has_bar H).
  rewrite (no_submatch_without Parser.memRegex "|" output mem_match_has_bar H).
  split; reflexivity.
Qed.

(** X17, witness: a header line without a table row. *)
Lemma X17_utilization_witness :
  Parser.ParseCPUUtilization "CPU utilization: 10% 20% 30%"
  = (Parser.mkCPU 0 0 0, Some (Parser.UnableToParse "cpu utilization")).
Proof.
  apply (proj1 (X17_utilization_needs_bar "CPU utilization: 10% 20% 30%" eq_refl)).
Defined.

(** ** Fields of a trimmed line *)

Module FieldFacts.
Import Parser TableFacts.

(** The bytes that can start a white-space rune. *)
Definition space_lead (c : ascii) : bool :=
  ((9 <=? code c) && (code c <=? 13) || (code c =? 32) || (code c =? 194)
   || (code c =? 225) || (code c =? 226) || (code c =? 227))%nat.

Lemma space_width_no_lead c s : space_lead c = false -> space_width (String c s) = 0%nat.
Proof.
  unfold space_lead. intros H.
  repeat (apply orb_false_iff in H as [H ?]).
  unfold space_width.
  repeat match goal with E : _ = false |- _ => rewrite E; clear E end.
  cbn [orb andb]. destruct s as [|c1 [|c2 s2]]; reflexivity.
Qed.

Lemma space_width_prefix p u k :
  space_width p = S k -> space_width (p ++ u) = S k.
Proof.
  destruct p as [|c0 [|c1 [|c2 p3]]]; [discriminate| | |].
  - change (String c0 "" ++ u) with (String c0 u). unfold space_width.
    destruct ((9 <=? code c0) && (code c0 <=? 13) || (code c0 =? 32))%nat;
      [auto | discriminate].
  - change (String c0 (String c1 "") ++ u) with (String c0 (String c1 u)).
    unfold space_width.
    destruct ((9 <=? code c0) && (code c0 <=? 13) || (code c0 =? 32))%nat; [auto|].
    destruct ((code c0 =? 194) && ((code c1 =? 133) || (code c1 =? 160)))%nat;
      [auto | discriminate].
  - change (String c0 (String c1 (String c2 p3)) ++ u)
      with (String c0 (String c1 (String c2 (p3 ++ u)))).
    unfold space_width. auto.
Qed.

Lemma length_drop n : forall s, (String.length (drop n s) <= String.length s)%nat.
Proof.
  induction n as [|n IH]; intros s; [simpl; lia|].
  destruct s as [|c s]; simpl; [lia|]. specialize (IH s). lia.
Qed.

Lemma trim_left_no_space fuel : forall s,
  (String.length s <= fuel)%nat -> space_width (trim_left_fuel fuel s) = 0%nat.
Proof.
  induction fuel as [|fuel IH]; intros s Hlen.
  - destruct s; [reflexivity | simpl in Hlen; lia].
  - cbn [trim_left_fuel]. destruct (space_width s) as [|k] eqn:E; [exact E|].
    apply IH. destruct s as [|c s]; [discriminate|].
    cbn [drop]. pose proof (length_drop k s). simpl in Hlen. lia.
Qed.

Lemma trim_right_prefix s : forall skip, exists u, s = trim_right_go s skip ++ u.
Proof.
  induction s as [|c s IH]; intros skip; [now exists ""|].
  cbn [trim_right_go]. destruct skip as [|k].
  - destruct (space_width (String c s)) as [|k].
    + destruct (IH 0%nat) as [u Hu]. exists u. simpl. now rewrite <- Hu.
    + destruct (IH k) as [u Hu].
      destruct (trim_right_go s k) eqn:E; [now exists (String c s)|].
      exists u. simpl. f_equal. exact Hu.
  - destruct (IH k) as [u Hu].
    destruct (trim_right_go s k) eqn:E; [now exists (String c s)|].
    exists u. simpl. f_equal. exact Hu.
Qed.

(** A trimmed line does not start with white space. *)
Lemma TrimSpace_no_leading_space l : space_width (TrimSpace l) = 0%nat.
Proof.
  unfold TrimSpace, TrimRight, TrimLeft.
  pose proof (trim_left_no_space (String.length l) l (Nat.le_refl _)) as H0.
  destruct (trim_right_prefix (trim_left_fuel (String.length l) l) 0) as [u Hu].
  destruct (space_width (trim_right_go _ 0)) as [|k] eqn:E; [reflexivity|].
  apply (space_width_prefix _ u) in E. rewrite <- Hu in E. congruence.
Qed.

Lemma fields_go_head s : forall cur,
  cur <> "" ->
  exists f fs u, fields_go s 0 cur = (cur ++ f) :: fs /\ s = f ++ u.
Proof.
  induction s as [|c s IH]; intros cur Hcur.
  - exists "", [], "". simpl. apply String.eqb_neq in Hcur. rewrite Hcur.
    now rewrite StringFacts.app_nil_r.
  - cbn [fields_go]. destruct (space_width (String c s)) as [|k].
    + destruct (IH (cur ++ String c "")) as (f & fs & u & Hf & Hs).
      { destruct cur; [now elim Hcur | discriminate]. }
      exists (String c f), fs, u. rewrite Hf, StringFacts.app_assoc. simpl.
      now rewrite Hs.
    + exists "", (fields_go s k ""), (String c s).
      apply String.eqb_neq in Hcur. rewrite Hcur. simpl.
      now rewrite StringFacts.app_nil_r.
Qed.

(** The first field of a line that starts with no white space is a
    non-empty prefix of the line. *)
Lemma Fields_first t :
  t <> "" -> space_width t = 0%nat ->
  exists f fs, Fields t = f :: fs /\ f <> "" /\ is_prefix f t.
Proof.
  intros Ht Hw. destruct t as [|c t]; [now elim Ht|].
  unfold Fields. cbn [fields_go]. rewrite Hw.
  destruct (fields_go_head t (String c "")) as (f & fs & u & Hf & Hs); [discriminate|].
  exists (String c f), fs. simpl in *. rewrite Hf.
  split; [reflexivity|]. split; [discriminate|]. exists u. now rewrite Hs.
Qed.

Lemma HasPrefix_of_prefix pre : forall f t,
  is_prefix f t -> HasPrefix f pre = true -> HasPrefix t pre = true.
Proof.
  induction pre as [|p pre IH]; intros f t [u ->] H; [now destruct (f ++ u)|].
  destruct f as [|c f]; simpl in H; [discriminate|].
  apply andb_true_iff in H as [Hc H]. simpl. rewrite Hc. simpl.
  apply (IH f); [now exists u | exact H].
Qed.

(** The first field of a trimmed, non-empty line that does not start with
    [pre] does not start with [pre] either. *)
Lemma first_field_not_header line pre :
  TrimSpace line <> "" -> HasPrefix (TrimSpace line) pre = false ->
  field line 0 <> "" /\ HasPrefix (field line 0) pre = false.
Proof.
  intros Ht Hp. unfold field.
  destruct (Fields_first _ Ht (TrimSpace_no_leading_space line)) as (f & fs & -> & Hf & Hpre).
  change (index (f :: fs) 0) with f. split; [exact Hf|].
  destruct (HasPrefix f pre) eqn:E; [|reflexivity].
  now rewrite (HasPrefix_of_prefix pre f _ Hpre E) in Hp.
Qed.

Lemma poe_key_prefix line k v : poe_row line = PoEEntry k v -> HasPrefix k "Tw" = true.
Proof.
  intros H. apply ParserFacts.poe_row_entry_key in H as [Hel ->].
  unfold poe_eligible in Hel. apply andb_true_iff in Hel as [Hp _].
  unfold field. destruct (ParserClaimFacts.HasPrefix_split _ _ Hp) as [r ->].
  change ("Tw" ++ r) with (String "T" (String "w" r)).
  unfold Fields. cbn [fields_go].
  rewrite (space_width_no_lead "T") by reflexivity.
  cbn [fields_go]. rewrite (space_width_no_lead "w") by reflexivity.
  destruct (fields_go_head r ("" ++ "T" ++ "w")) as (f & fs & u & Hf & _); [discriminate|].
  change (("" ++ String "T" "") ++ String "w" "") with ("" ++ "T" ++ "w").
  rewrite Hf. now destruct f.
Qed.

Lemma header_tests line (b1 b2 b3 : bool) :
  b1 || b2 || String.eqb line "" = false \/ b1 || b2 || b3 || String.eqb line "" = false ->
  line <> "".
Proof.
  intros [H | H]; apply orb_false_iff in H as [_ H]; now apply String.eqb_neq in H.
Qed.

Lemma status_row_port line r :
  status_row line = Some r ->
  isPort r <> "" /\ HasPrefix (isPort r) "Port" = false
  /\ HasPrefix (isPort r) "----" = false.
Proof.
  unfold status_row.
  destruct (HasPrefix (TrimSpace line) "Port" || HasPrefix (TrimSpace line) "----"
            || String.eqb (TrimSpace line) "") eqn:E; [discriminate|].
  destruct (6 <=? length (Fields (TrimSpace line)))%nat; [|discriminate].
  intros H. injection H as <-. cbn [isPort].
  assert (Ht : TrimSpace line <> "") by exact (header_tests _ _ _ false (or_introl E)).
  apply orb_false_iff in E as [E _]. apply orb_false_iff in E as [E1 E2].
  destruct (first_field_not_header line "Port" Ht E1) as [Hne H1].
  destruct (first_field_not_header line "----" Ht E2) as [_ H2].
  exact (conj Hne (conj H1 H2)).
Qed.

Lemma config_row_port line r :
  config_row line = Some r ->
  icPort r <> "" /\ HasPrefix (icPort r) "Port" = false
  /\ HasPrefix (icPort r) "----" = false.
Proof.
  unfold config_row.
  destruct (HasPrefix (TrimSpace line) "Port" || HasPrefix (TrimSpace line) "----"
            || String.eqb (TrimSpace line) "") eqn:E; [discriminate|].
  destruct (5 <=? length (Fields (TrimSpace line)))%nat; [|discriminate].
  intros H. injection H as <-. cbn [icPort].
  assert (Ht : TrimSpace line <> "") by exact (header_tests _ _ _ false (or_introl E)).
  apply orb_false_iff in E as [E _]. apply orb_false_iff in E as [E1 E2].
  destruct (first_field_not_header line "Port" Ht E1) as [Hne H1].
  destruct (first_field_not_header line "----" Ht E2) as [_ H2].
  exact (conj Hne (conj H1 H2)).
Qed.

Lemma mac_row_mac line r :
  mac_row line = Some r ->
  MAC r <> "" /\ HasPrefix (MAC r) "MAC" = false /\ HasPrefix (MAC r) "---" = false
  /\ HasPrefix (MAC r) "Total" = false.
Proof.
  unfold mac_row.
  destruct (HasPrefix (TrimSpace line) "MAC" || HasPrefix (TrimSpace line) "---"
            || HasPrefix (TrimSpace line) "Total" || String.eqb (TrimSpace line) "") eqn:E;
    [discriminate|].
  destruct (length (Fields (TrimSpace line)) =? 5)%nat; [|discriminate].
  destruct (Atoi _) as [vlan [e|]]; [discriminate|].
  intros H. injection H as <-. cbn [MAC].
  assert (Ht : TrimSpace line <> "") by exact (header_tests _ _ _ _ (or_intror E)).
  apply orb_false_iff in E as [E _]. apply orb_false_iff in E as [E E3].
  apply orb_false_iff in E as [E1 E2].
  destruct (first_field_not_header line "MAC" Ht E1) as [Hne H1].
  destruct (first_field_not_header line "---" Ht E2) as [_ H2].
  destruct (first_field_not_header line "Total" Ht E3) as [_ H3].
  exact (conj Hne (conj H1 (conj H2 H3))).
Qed.

Lemma In_omap {A B} (f : A -> option B) (l : list A) (y : B) :
  In y (omap f l) -> exists x, In x l /\ f x = Some y.
Proof.
  intros H. apply list_elem_of_In, list_elem_of_omap in H as (x & Hx & Hf).
  exists x. split; [now apply list_elem_of_In | exact Hf].
Qed.

End FieldFacts.
Import FieldFacts.

(** X18: every port of the table that [ParsePoETable] returns, with or
    without an error, has a name that starts with "Tw". *)
Theorem X18_poe_keys_start_with_Tw (output k : string) (v : Parser.PoEPort) :
  fst (Parser.ParsePoETable output) !! k = Some v -> HasPrefix k "Tw" = true.
Proof.
  intros Hk. destruct (snd (Parser.ParsePoETable output)) as [e|] eqn:Hok.
  - assert (Hnil : fst (Parser.ParsePoETable output) = ∅)
      by (apply poe_loop_error_nil; unfold Parser.ParsePoETable in Hok; now rewrite Hok).
    now rewrite Hnil, lookup_empty in Hk.
  - unfold Parser.ParsePoETable in *.
    destruct (poe_loop_origin _ _ _ _ Hok Hk) as [[Hp _] | (l1 & line & l2 & _ & Hrow & _)];
      [now rewrite lookup_empty in Hp|].
    now apply poe_key_prefix in Hrow.
Qed.

(** X18, witness: the port of the sample row. *)
Lemma X18_poe_keys_witness : HasPrefix "Tw1/0/1" "Tw" = true.
Proof.
  exact (X18_poe_keys_start_with_Tw "  Tw1/0/1 4.2 84 52.0 Class1 ON" "Tw1/0/1"
           _ ltac:(vm_compute; reflexivity)).
Defined.

(** X19: no record that [ParseInterfaceStatus] or [ParseInterfaceConfig]
    returns has an empty port or a port that starts with "Port" or
    "----", and no entry of [ParseMACTable] has an empty address or one
    that starts with "MAC", "---" or "Total": a row whose first column
    begins like a header is dropped with the headers. *)
Theorem X19_rows_like_headers_dropped (output : string) :
  (forall r, In r (fst (Parser.ParseInterfaceStatus output)) ->
     Parser.isPort r <> "" /\ HasPrefix (Parser.isPort r) "Port" = false
     /\ HasPrefix (Parser.isPort r) "----" = false)
  /\ (forall r, In r (fst (Parser.ParseInterfaceConfig output)) ->
        Parser.icPort r <> "" /\ HasPrefix (Parser.icPort r) "Port" = false
        /\ HasPrefix (Parser.icPort r) "----" = false)
  /\ (forall r, In r (fst (Parser.ParseMACTable output)) ->
        Parser.MAC r <> "" /\ HasPrefix (Parser.MAC r) "MAC" = false
        /\ HasPrefix (Parser.MAC r) "---" = false
        /\ HasPrefix (Parser.MAC r) "Total" = false).
Proof.
  unfold Parser.ParseInterfaceStatus, Parser.ParseInterfaceConfig, Parser.ParseMACTable.
  cbn [fst].
  rewrite TableFacts.status_loop_spec, TableFacts.config_loop_spec,
    TableFacts.mac_loop_spec.
  cbn [app]. split; [|split]; intros r Hr; apply In_omap in Hr as (line & _ & Hrow).
  - now apply status_row_port in Hrow.
  - now apply config_row_port in Hrow.
  - now apply mac_row_mac in Hrow.
Qed.

(** X19, witness: a status table with a row for "Port-channel1", which is
    dropped. *)
Lemma X19_rows_like_headers_witness :
  fst (Parser.ParseInterfaceStatus
         ("Port-channel1 LinkUp 10G Full Off Fiber" ++ String LF
            "Gi1/0/1 LinkUp 1G Full Off Copper"))
  = [Parser.mkStatus "Gi1/0/1" "LinkUp" "1G" "Full" "Off" "Copper" ""]
  /\ HasPrefix "Gi1/0/1" "Port" = false.
Proof.
  split; [reflexivity|].
  exact (proj1 (proj2 (proj1 (X19_rows_like_headers_dropped
    ("Port-channel1 LinkUp 10G Full Off Fiber" ++ String LF
       "Gi1/0/1 LinkUp 1G Full Off Copper"))
    (Parser.mkStatus "Gi1/0/1" "LinkUp" "1G" "Full" "Off" "Copper" "")
    (or_introl eq_refl)))).
Defined.
